(** * Connection: the socket client connection of dubtrack-ws-client

    A shallow embedding of [lib/Connection.js].  The class is a state
    machine driven by transport events, timers and caller requests; it is
    modelled as a record for the fields of [this], a small state-and-exception
    monad for the methods, and a trace of the calls made on the external
    collaborators (event listeners, the engine.io transport, user callbacks).

    Conventions.
    - Identifiers, secrets and tokens are JavaScript strings that may be
      missing: [option string], with JavaScript truthiness ([Some ""] is
      falsy).  Request ids are strings, as the JSDoc of [_addCallback] and
      [_execCallback] declares them.
    - [this._callbacks] is an array used as a dictionary: a [gmap] from the
      property key to the entry.  Keys are assumed not to name built-in
      Array properties (length, push, ...); generated request ids are at
      least 25 characters long and never do.
    - User functions (event listeners, callbacks) are opaque: a call is
      recorded in the trace, returns normally and does not re-enter the
      connection.  Transport and timer callbacks are delivered as separate
      steps ([onOpen], [onClose], [onMessage], [fire], ...).
    - Numbers are integers ([Z]); the retry ceiling may be any integer.
    - [lib/MessageMaster.js] and [lib/Message.js] are not part of the
      sources: the codec and the handshake action are parameters. *)

From stdpp Require Import gmap strings list fin_maps.
From Stdlib Require Import ZArith Lia Ascii.

Open Scope Z_scope.

(** ** JavaScript values *)

Inductive value :=
| VUndefined
| VNull
| VBool (b : bool)
| VNum (n : Z)
| VStr (s : string)
| VObj (r : nat)      (* an object, by reference into the heap *)
| VFun (r : nat).     (* a function, by reference as well *)

Global Instance value_eq_dec : EqDecision value.
Proof. solve_decision. Defined.

(** [if (v)] *)
Definition truthy (v : value) : bool :=
  match v with
  | VUndefined | VNull => false
  | VBool b => b
  | VNum n => negb (n =? 0)
  | VStr s => negb (String.eqb s "")
  | VObj _ | VFun _ => true
  end.

(** [if (s)] for a string that may be missing *)
Definition truthy_str (s : option string) : bool :=
  match s with
  | Some s => negb (String.eqb s "")
  | None => false
  end.

(** [a || b] on strings that may be missing *)
Definition or_str (a b : option string) : option string :=
  if truthy_str a then a else b.

(** [a || 'dflt'] *)
Definition or_default (a : option string) (dflt : string) : string :=
  match a with
  | Some s => if String.eqb s "" then dflt else s
  | None => dflt
  end.

(** lodash [_.isFunction] and [_.isObject] (a function is an object) *)
Definition isFunction (v : value) : bool :=
  match v with VFun _ => true | _ => false end.

Definition isObject (v : value) : bool :=
  match v with VObj _ | VFun _ => true | _ => false end.

(** [a === b], as the [switch] statement compares *)
Definition strict_eq (a b : value) : bool := bool_decide (a = b).

(** Errors thrown or handed to callbacks. *)
Inductive jserror :=
| Error (msg : string)
| TypeError.           (* raised by the runtime; its text is engine-specific *)

Global Instance jserror_eq_dec : EqDecision jserror.
Proof. solve_decision. Defined.

(** [String(err)], which is what a property access [obj[err]] uses as key *)
Definition error_to_string (e : jserror) : string :=
  match e with
  | Error msg => "Error: " +:+ msg
  | TypeError => "TypeError"
  end.

(** ** Envelopes, transport errors, options *)

(** A decoded message: [{reqId?, action?, clientId?, connectionId?,
    socketId?, ...fields}]. *)
Record envelope := {
  e_reqId : option string;
  e_action : value;
  e_clientId : option string;
  e_connectionId : option string;
  e_socketId : option string;
  e_fields : list (string * value)
}.

(** The argument of a transport "error" event: falsy, or an object with a
    [type] tag. *)
Record transport_error := { err_type : option string }.

(** [this.states] *)
Inductive State :=
| initialized | connecting | connected | disconnected | closing | closed | failed.

Global Instance State_eq_dec : EqDecision State.
Proof. solve_decision. Defined.

Definition state_name (s : State) : string :=
  match s with
  | initialized => "initialized"
  | connecting => "connecting"
  | connected => "connected"
  | disconnected => "disconnected"
  | closing => "closing"
  | closed => "closed"
  | failed => "failed"
  end.

(** The constructor's [options] argument.  Keys other than these are
    handed to the transport untouched and are not modelled. *)
Record Config := {
  c_secure : bool;
  c_clientId : option string;
  c_secret : option string;
  c_token : option string;
  c_authCallback : value;
  c_host : option string;
  c_retriesAmount : option Z;      (* [Some n] when it is a number *)
  c_autoReconnect : option bool;   (* [Some b] when it is a boolean *)
  c_noAutoConnect : bool
}.

(** [this.options] after [_.merge] and defaulting *)
Record Options := {
  retriesAmount : Z;
  autoReconnect : bool;
  noAutoConnect : bool
}.

(** ** The trace of external calls *)

Inductive arg :=
| AVal (v : value)
| AStr (s : string)
| AErr (e : jserror)
| ANull
| AUndefined
| ASockErr (e : option transport_error)
| AData (d : envelope)
| AEmptyObject         (* the literal {} *)
| ADone.               (* the completion function given to authCallback *)

Inductive listener := LOnOpen | LOnClose | LOnError | LOnMessage | LConnectError.

Inductive effect :=
| Emit (name : string) (args : list arg)         (* this.emit(name, ...) *)
| Invoke (f : value) (args : list arg)           (* f(...) for a user value f *)
| Eio (sock : nat) (url : string)                (* eio(url, options) *)
| SocketClose (sock : nat)
| SocketRemoveAllListeners (sock : nat) (ev : string)
| SocketOn (sock : nat) (ev : string) (l : listener)
| SocketOnce (sock : nat) (ev : string) (l : listener)
| SocketSend (sock : nat) (payload : value).

(** ** Timers *)

(** What a pending [setTimeout] will run. *)
Inductive task :=
| TReconnect                      (* this._reconnect.bind(this) *)
| TExecCallback (err : jserror).  (* this._execCallback.bind(this, err, null) *)

(** An entry of [this._callbacks] *)
Record entry := { cb : value; timeout : nat }.

(** ** The connection *)

Record Connection := {
  secure : bool;
  state : State;
  clientId : string;
  connectionId : option string;
  secret : option string;
  token : option string;
  host : string;
  url : string;
  options : Options;
  socket : option nat;
  reconnectTimeout : option nat;
  currentRetries : Z;
  _callbacks : gmap string entry;
  (* the runtime around the object *)
  timers : gmap nat (task * Z);            (* pending timeouts, by handle *)
  transports : gmap nat string;            (* readyState of each transport *)
  heap : gmap nat (gmap string value);     (* properties of callers' objects *)
  next_handle : nat;                       (* fresh timer and transport ids *)
  trace : list effect                      (* external calls, oldest first *)
}.

(** Field updates, [this.f = v]. *)

Definition set_state (v : State) (c : Connection) : Connection :=
  {| secure := secure c; state := v; clientId := clientId c;
     connectionId := connectionId c; secret := secret c; token := token c;
     host := host c; url := url c; options := options c; socket := socket c;
     reconnectTimeout := reconnectTimeout c;
     currentRetries := currentRetries c; _callbacks := _callbacks c;
     timers := timers c; transports := transports c; heap := heap c;
     next_handle := next_handle c; trace := trace c |}.

Definition set_clientId (v : string) (c : Connection) : Connection :=
  {| secure := secure c; state := state c; clientId := v;
     connectionId := connectionId c; secret := secret c; token := token c;
     host := host c; url := url c; options := options c; socket := socket c;
     reconnectTimeout := reconnectTimeout c;
     currentRetries := currentRetries c; _callbacks := _callbacks c;
     timers := timers c; transports := transports c; heap := heap c;
     next_handle := next_handle c; trace := trace c |}.

Definition set_connectionId (v : option string) (c : Connection) : Connection :=
  {| secure := secure c; state := state c; clientId := clientId c;
     connectionId := v; secret := secret c; token := token c; host := host c;
     url := url c; options := options c; socket := socket c;
     reconnectTimeout := reconnectTimeout c;
     currentRetries := currentRetries c; _callbacks := _callbacks c;
     timers := timers c; transports := transports c; heap := heap c;
     next_handle := next_handle c; trace := trace c |}.

Definition set_token (v : option string) (c : Connection) : Connection :=
  {| secure := secure c; state := state c; clientId := clientId c;
     connectionId := connectionId c; secret := secret c; token := v;
     host := host c; url := url c; options := options c; socket := socket c;
     reconnectTimeout := reconnectTimeout c;
     currentRetries := currentRetries c; _callbacks := _callbacks c;
     timers := timers c; transports := transports c; heap := heap c;
     next_handle := next_handle c; trace := trace c |}.

Definition set_options (v : Options) (c : Connection) : Connection :=
  {| secure := secure c; state := state c; clientId := clientId c;
     connectionId := connectionId c; secret := secret c; token := token c;
     host := host c; url := url c; options := v; socket := socket c;
     reconnectTimeout := reconnectTimeout c;
     currentRetries := currentRetries c; _callbacks := _callbacks c;
     timers := timers c; transports := transports c; heap := heap c;
     next_handle := next_handle c; trace := trace c |}.

Definition set_socket (v : option nat) (c : Connection) : Connection :=
  {| secure := secure c; state := state c; clientId := clientId c;
     connectionId := connectionId c; secret := secret c; token := token c;
     host := host c; url := url c; options := options c; socket := v;
     reconnectTimeout := reconnectTimeout c;
     currentRetries := currentRetries c; _callbacks := _callbacks c;
     timers := timers c; transports := transports c; heap := heap c;
     next_handle := next_handle c; trace := trace c |}.

Definition set_reconnectTimeout (v : option nat) (c : Connection) : Connection :=
  {| secure := secure c; state := state c; clientId := clientId c;
     connectionId := connectionId c; secret := secret c; token := token c;
     host := host c; url := url c; options := options c; socket := socket c;
     reconnectTimeout := v; currentRetries := currentRetries c;
     _callbacks := _callbacks c; timers := timers c;
     transports := transports c; heap := heap c;
     next_handle := next_handle c; trace := trace c |}.

Definition set_currentRetries (v : Z) (c : Connection) : Connection :=
  {| secure := secure c; state := state c; clientId := clientId c;
     connectionId := connectionId c; secret := secret c; token := token c;
     host := host c; url := url c; options := options c; socket := socket c;
     reconnectTimeout := reconnectTimeout c; currentRetries := v;
     _callbacks := _callbacks c; timers := timers c;
     transports := transports c; heap := heap c;
     next_handle := next_handle c; trace := trace c |}.

Definition set_callbacks (v : gmap string entry) (c : Connection) : Connection :=
  {| secure := secure c; state := state c; clientId := clientId c;
     connectionId := connectionId c; secret := secret c; token := token c;
     host := host c; url := url c; options := options c; socket := socket c;
     reconnectTimeout := reconnectTimeout c;
     currentRetries := currentRetries c; _callbacks := v; timers := timers c;
     transports := transports c; heap := heap c;
     next_handle := next_handle c; trace := trace c |}.

Definition set_timers (v : gmap nat (task * Z)) (c : Connection) : Connection :=
  {| secure := secure c; state := state c; clientId := clientId c;
     connectionId := connectionId c; secret := secret c; token := token c;
     host := host c; url := url c; options := options c; socket := socket c;
     reconnectTimeout := reconnectTimeout c;
     currentRetries := currentRetries c; _callbacks := _callbacks c;
     timers := v; transports := transports c; heap := heap c;
     next_handle := next_handle c; trace := trace c |}.

Definition set_transports (v : gmap nat string) (c : Connection) : Connection :=
  {| secure := secure c; state := state c; clientId := clientId c;
     connectionId := connectionId c; secret := secret c; token := token c;
     host := host c; url := url c; options := options c; socket := socket c;
     reconnectTimeout := reconnectTimeout c;
     currentRetries := currentRetries c; _callbacks := _callbacks c;
     timers := timers c; transports := v; heap := heap c;
     next_handle := next_handle c; trace := trace c |}.

Definition set_heap (v : gmap nat (gmap string value)) (c : Connection) : Connection :=
  {| secure := secure c; state := state c; clientId := clientId c;
     connectionId := connectionId c; secret := secret c; token := token c;
     host := host c; url := url c; options := options c; socket := socket c;
     reconnectTimeout := reconnectTimeout c;
     currentRetries := currentRetries c; _callbacks := _callbacks c;
     timers := timers c; transports := transports c; heap := v;
     next_handle := next_handle c; trace := trace c |}.

Definition set_next_handle (v : nat) (c : Connection) : Connection :=
  {| secure := secure c; state := state c; clientId := clientId c;
     connectionId := connectionId c; secret := secret c; token := token c;
     host := host c; url := url c; options := options c; socket := socket c;
     reconnectTimeout := reconnectTimeout c;
     currentRetries := currentRetries c; _callbacks := _callbacks c;
     timers := timers c; transports := transports c; heap := heap c;
     next_handle := v; trace := trace c |}.

Definition set_trace (v : list effect) (c : Connection) : Connection :=
  {| secure := secure c; state := state c; clientId := clientId c;
     connectionId := connectionId c; secret := secret c; token := token c;
     host := host c; url := url c; options := options c; socket := socket c;
     reconnectTimeout := reconnectTimeout c;
     currentRetries := currentRetries c; _callbacks := _callbacks c;
     timers := timers c; transports := transports c; heap := heap c;
     next_handle := next_handle c; trace := v |}.
(** ** Methods as state transformers that may throw *)

Inductive completion (A : Type) :=
| Normal (a : A)
| Throw (e : jserror).

Arguments Normal {A} a.
Arguments Throw {A} e.

Definition M (A : Type) : Type := Connection -> Connection * completion A.

Definition ret {A} (a : A) : M A := fun c => (c, Normal a).

Definition bind {A B} (m : M A) (k : A -> M B) : M B :=
  fun c =>
    match m c with
    | (c', Normal a) => k a c'
    | (c', Throw e) => (c', Throw e)
    end.

Definition throw {A} (e : jserror) : M A := fun c => (c, Throw e).
Definition get : M Connection := fun c => (c, Normal c).
Definition modify (f : Connection -> Connection) : M unit :=
  fun c => (f c, Normal tt).

Notation "'let*' x ':=' m 'in' k" := (bind m (fun x => k))
  (at level 10, x name, m at level 100, k at level 200, only parsing).
Notation "m '>>' k" := (bind m (fun _ => k))
  (at level 100, k at level 200, right associativity, only parsing).

Definition when (b : bool) (m : M unit) : M unit := if b then m else ret tt.

(** The final state and the completion of a run. *)
Definition exec {A} (m : M A) (c : Connection) : Connection := fst (m c).
Definition result {A} (m : M A) (c : Connection) : completion A := snd (m c).

(** Record an external call. *)
Definition perform (e : effect) : M unit :=
  modify (fun c => set_trace (trace c ++ [e]) c).

(** [this.emit(name, ...args)] *)
Definition emit (name : string) (args : list arg) : M unit :=
  perform (Emit name args).

(** [setTimeout(task, delay)]: a fresh handle, the task pending under it. *)
Definition setTimeout (t : task) (delay : Z) : M nat :=
  fun c =>
    let h := next_handle c in
    (set_next_handle (S h) (set_timers (<[h := (t, delay)]> (timers c)) c),
     Normal h).

(** [clearTimeout(h)] *)
Definition clearTimeout (h : nat) : M unit :=
  modify (fun c => set_timers (delete h (timers c)) c).

(** ** Collaborators outside this module *)

(** [lib/MessageMaster.js], the envelope codec: only its interface is known. *)
Class MessageMaster := {
  parse : string -> envelope;
  stringify : gmap nat (gmap string value) -> value -> string
}.

(** [lib/Message.js]: the value of [Message.ACTION.CONNECTED], the reserved
    handshake action. *)
Class Message := { ACTION_CONNECTED : value }.

(** ** String helpers of the JavaScript runtime *)

(** ['' + s] *)
Definition String_of (s : option string) : string :=
  match s with Some s => s | None => "null" end.

(** [s.replace(pat, rep)] for a string pattern: the first occurrence only *)
Definition replace_first (pat rep s : string) : string :=
  match String.index 0 pat s with
  | Some i =>
      let j := (i + String.length pat)%nat in
      String.substring 0 i s +:+ rep
        +:+ String.substring j (String.length s - j)%nat s
  | None => s
  end.

(** [s.charAt(i)] *)
Definition charAt (s : string) (i : nat) : string :=
  match String.get i s with
  | Some a => String a EmptyString
  | None => EmptyString
  end.

(** [n || dflt] for an optional number *)
Definition or_num (n : option Z) (dflt : Z) : Z :=
  match n with
  | Some n => if n =? 0 then dflt else n
  | None => dflt
  end.

(** Truthiness of a value handed to [fail]. *)
Definition arg_truthy (a : arg) : bool :=
  match a with
  | AVal v => truthy v
  | AStr s => negb (String.eqb s "")
  | ANull | AUndefined | ASockErr None => false
  | AErr _ | ASockErr (Some _) | AData _ | AEmptyObject | ADone => true
  end.

(** ** The methods of [Connection] *)

(** [this.socket.m(...)]: a [TypeError] when the handle is null. *)
Definition on_socket (call : nat -> effect) : M unit :=
  fun c =>
    match socket c with
    | Some s => perform (call s) c
    | None => throw TypeError c
    end.

(** [this.socket.readyState] *)
Definition readyState : M (option string) :=
  fun c =>
    match socket c with
    | Some s => ret (transports c !! s) c
    | None => throw TypeError c
    end.

(** [eio(url, this.options)]: a new transport, opening. *)
Definition eio (u : string) : M nat :=
  let* c := get in
  let s := next_handle c in
  modify (set_next_handle (S s)) >>
  modify (fun c => set_transports (<[s := "opening"]> (transports c)) c) >>
  perform (Eio s u) >>
  ret s.

(** [_buildUrl()], lines 109-121. *)
Definition _buildUrl (c : Connection) : string :=
  let url := url c in
  let url :=
    if truthy_str (secret c) then url +:+ "&secret=" +:+ String_of (secret c)
    else url in
  let url :=
    if truthy_str (token c) then url +:+ "&access_token=" +:+ String_of (token c)
    else url in
  let url :=
    if negb (String.eqb (clientId c) "") then url +:+ "&clientId=" +:+ clientId c
    else url in
  url.

(** [hasAuth()], lines 127-129: [Boolean(this.token || this.secret)]. *)
Definition hasAuth (c : Connection) : bool :=
  truthy_str (or_str (token c) (secret c)).

(** [fail(err)], lines 135-138. *)
Definition fail (err : arg) : M unit :=
  modify (set_state failed) >>
  let* c := get in
  emit (state_name (state c))
    [if arg_truthy err then err else AStr "Something wrong"].

(** [isConnected()], lines 143-145. *)
Definition isConnected (c : Connection) : bool :=
  bool_decide (state c = connected).

(** [clearSocketListeners()], lines 242-250. *)
Definition clearSocketListeners : M unit :=
  let* c := get in
  match socket c with
  | None => ret tt
  | Some s =>
      perform (SocketRemoveAllListeners s "open") >>
      perform (SocketRemoveAllListeners s "close") >>
      perform (SocketRemoveAllListeners s "error") >>
      perform (SocketRemoveAllListeners s "message")
  end.

(** [close()], lines 150-155. *)
Definition close : M unit :=
  modify (set_state closing) >>
  emit (state_name closing) [] >>
  on_socket SocketClose >>
  clearSocketListeners.

(** [connect()], lines 316-341.  The listeners it installs are recorded in
    the trace; their bodies are [onOpen] and [onConnectError]. *)
Definition connect : M unit :=
  let* c := get in
  let* live :=
    (if bool_decide (state c = connected)
     then let* rs := readyState in ret (bool_decide (rs = Some "open"))
     else ret false) in
  if live then ret tt
  else if negb (hasAuth c) then fail (AStr "No auth parameters")
  else
    modify (set_state connecting) >>
    clearSocketListeners >>
    when (bool_decide (is_Some (socket c))) (on_socket SocketClose) >>
    let* c := get in
    let url := _buildUrl c in
    let* s := eio url in
    modify (set_socket (Some s)) >>
    on_socket (fun s => SocketRemoveAllListeners s "open") >>
    on_socket (fun s => SocketRemoveAllListeners s "error") >>
    on_socket (fun s => SocketOnce s "open" LOnOpen) >>
    on_socket (fun s => SocketOnce s "error" LConnectError).

(** [_reconnect()], lines 170-186. *)
Definition _reconnect : M unit :=
  let* c := get in
  if negb (autoReconnect (options c)) then ret tt
  else if retriesAmount (options c) <=? currentRetries c then ret tt
  else if isConnected c then modify (set_currentRetries 0)
  else if bool_decide (state c ≠ connecting) && bool_decide (state c ≠ connected)
  then modify (fun c => set_currentRetries (currentRetries c + 1) c) >> connect
  else ret tt.

(** [_setupReconnect()], lines 191-201. *)
Definition _setupReconnect : M unit :=
  let* c := get in
  match reconnectTimeout c with
  | Some h => clearTimeout h >> modify (set_reconnectTimeout None)
  | None => ret tt
  end >>
  let* c := get in
  if retriesAmount (options c) <=? currentRetries c then ret tt
  else
    let* h := setTimeout TReconnect 1000 in
    modify (set_reconnectTimeout (Some h)).

(** [onClose(force)], lines 157-168. *)
Definition onClose : M unit :=
  let* c := get in
  if bool_decide (state c = closing) then
    modify (set_state closed) >>
    emit (state_name closed) []
  else
    modify (set_state disconnected) >>
    emit (state_name disconnected) [] >>
    _setupReconnect.

(** [_addCallback(reqId, cb, timeout)], lines 209-218. *)
Definition _addCallback (reqId : string) (cb : value) (timeout : option Z)
  : M unit :=
  let* c := get in
  if bool_decide (is_Some (_callbacks c !! reqId)) then
    throw (Error ("Could not make add callback operation with reqId: " +:+ reqId))
  else
    let err := Error ("Operation timeout for callback: " +:+ reqId) in
    let* h := setTimeout (TExecCallback err) (or_num timeout 15000) in
    modify (fun c =>
      set_callbacks (<[reqId := {| cb := cb; timeout := h |}]> (_callbacks c)) c).

(** [_execCallback(reqId, err, data)], lines 226-237.  A timer handle is
    always truthy. *)
Definition _execCallback (reqId : string) (err data : arg) : M unit :=
  let* c := get in
  match _callbacks c !! reqId with
  | None => ret tt
  | Some e =>
      clearTimeout (timeout e) >>
      when (isFunction (cb e)) (perform (Invoke (cb e) [err; data])) >>
      modify (fun c => set_callbacks (delete reqId (_callbacks c)) c)
  end.

(** [onOpen()], lines 255-263. *)
Definition onOpen : M unit :=
  let* c := get in
  match socket c with
  | None => ret tt
  | Some _ =>
      clearSocketListeners >>
      on_socket (fun s => SocketOn s "close" LOnClose) >>
      on_socket (fun s => SocketOn s "error" LOnError) >>
      on_socket (fun s => SocketOn s "message" LOnMessage)
  end.

(** [onError(err)], lines 269-277. *)
Definition onError (err : option transport_error) : M unit :=
  let* c := get in
  if bool_decide (state c = connecting) then
    modify (set_state failed) >>
    emit (state_name failed) []
  else
    emit "error" [ASockErr err].

(** The one-shot "error" listener that [connect] installs, lines 335-340. *)
Definition onConnectError (err : option transport_error) : M unit :=
  match err with
  | Some e =>
      if bool_decide (err_type e = Some "TransportError") then
        fail (ASockErr err) >> _setupReconnect
      else ret tt
  | None => ret tt
  end.

(** What the environment hands to the "message" listener. *)
Inductive payload :=
| Raw (s : string)
| Decoded (d : envelope).

(** [randomReqId()], lines 378-387: [draw i] is the value of
    [Math.floor(Math.random() * possible.length)] at iteration [i]. *)
Definition possible : string :=
  "ABCDEFGHIJKLMNOPQRSTUVWXYZabcdefghijklmnopqrstuvwxyz0123456789".

Fixpoint random_text (draw : nat -> nat) (i n : nat) : string :=
  match n with
  | O => EmptyString
  | S n => charAt possible (draw i) +:+ random_text draw (S i) n
  end.

Definition randomReqId (draw : nat -> nat) (c : Connection) : string :=
  random_text draw 0 24 +:+ or_default (connectionId c) "----".

(** [obj.key = v] for an object or a function. *)
Definition set_property (obj : value) (key : string) (v : value) : M unit :=
  match obj with
  | VObj r | VFun r =>
      modify (fun c =>
        set_heap (<[r := <[key := v]> (default ∅ (heap c !! r))]> (heap c)) c)
  | _ => throw TypeError
  end.

Section WithCodec.

Context `{MessageMaster} `{Message}.

(** [if (_.isString(data)) data = MessageMaster.parse(data)] *)
Definition decode (p : payload) : envelope :=
  match p with
  | Raw s => parse s
  | Decoded d => d
  end.

(** [onMessage(data)], lines 283-311. *)
Definition onMessage (p : payload) : M unit :=
  let data := decode p in
  let* c := get in
  match e_reqId data with
  | Some reqId =>
      when (truthy_str (Some reqId)
            && bool_decide (is_Some (_callbacks c !! reqId)))
        (_execCallback reqId ANull (AData data))
  | None => ret tt
  end >>
  if negb (truthy (e_action data)) then ret tt
  else if strict_eq (e_action data) ACTION_CONNECTED then
    when (truthy_str (e_clientId data))
      (modify (set_clientId (String_of (e_clientId data)))) >>
    when (truthy_str (e_connectionId data) || truthy_str (e_socketId data))
      (modify (set_connectionId
                 (or_str (e_connectionId data) (e_socketId data)))) >>
    modify (set_currentRetries 0) >>
    modify (set_state connected) >>
    emit (state_name connected) []
  else
    emit "message" [AData data].

(** [send(message)], lines 346-351. *)
Definition send (message : value) : M unit :=
  let* c := get in
  let message :=
    if isObject message then VStr (stringify (heap c) message) else message in
  on_socket (fun s => SocketSend s message).

(** [sendCallback(message, cb, timeout)], lines 359-372. *)
Definition sendCallback (draw : nat -> nat) (message cb : value)
    (timeout : option Z) : M unit :=
  if negb (isFunction cb) then ret tt
  else if negb (isObject message) then
    perform (Invoke cb [AErr (Error "Wrong message")])
  else
    let timeout := or_num timeout 15000 in
    let* c := get in
    let reqId := randomReqId draw c in
    set_property message "reqId" (VStr reqId) >>
    _addCallback reqId message (Some timeout) >>
    send message.

End WithCodec.

(** A timer expires: the environment removes it and runs its task.  The
    callback timer was bound as [_execCallback.bind(this, err, null)], so
    the call is [_execCallback(err, null, undefined)]: the error object
    lands in the [reqId] parameter and is used as a property key through
    its string conversion. *)
Definition run_task (t : task) : M unit :=
  match t with
  | TReconnect => _reconnect
  | TExecCallback err => _execCallback (error_to_string err) ANull AUndefined
  end.

Definition fire (h : nat) : M unit :=
  let* c := get in
  match timers c !! h with
  | None => ret tt
  | Some (t, _) =>
      modify (fun c => set_timers (delete h (timers c)) c) >>
      run_task t
  end.

(** ** Construction *)

(** The second argument an auth callback passes to its completion function. *)
Inductive token_or_data :=
| TString (s : string)                (* a bare token *)
| TObject (tok : option string)       (* an object, with its [token] field *)
| TOther.                             (* anything else *)

(** The completion function handed to [options.authCallback], lines 63-79. *)
Definition authDone (err : arg) (tokenOrData : token_or_data) : M unit :=
  if arg_truthy err then fail err
  else
    match tokenOrData with
    | TString s => modify (set_token (Some s))
    | TObject tok =>
        when (truthy_str tok) (modify (set_token tok))
    | TOther => ret tt
    end >>
    let* c := get in
    if negb (truthy_str (token c)) then fail (AStr "No token received")
    else connect.

(** [new Connection(client, options)], lines 20-103.  [reply] is what the
    auth callback does while the constructor runs: [Some (err, data)] when
    it calls its completion function synchronously, [None] when it
    completes later (then [authDone] is a step of its own).  The fields
    assigned only after the callback returned hold placeholders until
    then; [connect] reads none of them but the null [socket]. *)
Definition constructor (cfg : Config)
    (reply : option (arg * token_or_data)) : completion Connection :=
  if negb (truthy_str (c_secret cfg)) && negb (truthy_str (c_token cfg))
     && negb (truthy (c_authCallback cfg))
  then Throw (Error "No auth keys passed")
  else
    let host0 := or_default (c_host cfg) "localhost:8081" in
    let wss := bool_decide (String.index 0 "wss://" host0 = Some 0%nat) in
    let secure := if wss then true else c_secure cfg in
    let host := if wss then replace_first "wss://" "" host0 else host0 in
    let prefix := if secure then "wss://" else "ws://" in
    let deferred := isFunction (c_authCallback cfg) in
    let opts :=
      {| retriesAmount := default 7 (c_retriesAmount cfg);
         autoReconnect := default true (c_autoReconnect cfg);
         noAutoConnect := if deferred then true else c_noAutoConnect cfg |} in
    let this :=
      {| secure := secure;
         state := initialized;
         clientId := or_default (c_clientId cfg) "";
         connectionId := None;
         secret := or_str (c_secret cfg) None;
         token := or_str (c_token cfg) None;
         host := host;
         url := prefix +:+ host +:+ "?connect=1";
         options := opts;
         socket := None;
         reconnectTimeout := None;
         currentRetries := 0;
         _callbacks := ∅;
         timers := ∅; transports := ∅; heap := ∅;
         next_handle := 1;
         trace := [] |} in
    let body : M unit :=
      when deferred
        (modify (set_state connecting) >>
         perform (Invoke (c_authCallback cfg) [AEmptyObject; ADone]) >>
         match reply with
         | Some (err, data) => authDone err data
         | None => ret tt
         end) >>
      (* the fields assigned after the auth callback returned *)
      modify (set_options opts) >>
      modify (set_socket None) >>
      modify (set_reconnectTimeout None) >>
      modify (set_currentRetries 0) >>
      modify (set_callbacks ∅) >>
      let* c := get in
      when (negb (noAutoConnect (options c))) connect in
    match body this with
    | (c, Normal _) => Normal c
    | (_, Throw e) => Throw e
    end.

(** ** The connection URL of the specification and its query parameters *)

(** The grammar [<ws|wss>://<host>?connect=1[&secret=<s>][&access_token=<t>]
    [&clientId=<c>]], as the specification words it. *)
Definition optional_param (key : string) (v : option string) : string :=
  match v with
  | Some v => "&" +:+ key +:+ "=" +:+ v
  | None => ""
  end.

Definition connection_url (wss : bool) (h : string) (s t cid : option string)
  : string :=
  (if wss then "wss" else "ws") +:+ "://" +:+ h +:+ "?connect=1"
    +:+ optional_param "secret" s
    +:+ optional_param "access_token" t
    +:+ optional_param "clientId" cid.

(** Reading the query parameters back: the query is what follows the first
    ['?'] and precedes the fragment, parameters are separated by ['&'], and
    each one is split at its first ['=']; nothing is percent-decoded. *)
Fixpoint has_char (a : ascii) (s : string) : bool :=
  match s with
  | EmptyString => false
  | String b s => if Ascii.eqb a b then true else has_char a s
  end.

Fixpoint before_char (a : ascii) (s : string) : string :=
  match s with
  | EmptyString => EmptyString
  | String b s => if Ascii.eqb a b then EmptyString else String b (before_char a s)
  end.

Fixpoint after_char (a : ascii) (s : string) : option string :=
  match s with
  | EmptyString => None
  | String b s => if Ascii.eqb a b then Some s else after_char a s
  end.

Fixpoint split_on (a : ascii) (s : string) : list string :=
  match s with
  | EmptyString => [EmptyString]
  | String b s =>
      if Ascii.eqb a b then EmptyString :: split_on a s
      else
        match split_on a s with
        | piece :: pieces => String b piece :: pieces
        | [] => [String b EmptyString]
        end
  end.

Definition key_value (kv : string) : string * string :=
  (before_char "="%char kv, default "" (after_char "="%char kv)).

Definition query_params (u : string) : list (string * string) :=
  match after_char "?"%char (before_char "#"%char u) with
  | Some q => key_value <$> split_on "&"%char q
  | None => []
  end.

(** The first value given for [key], if any. *)
Definition query_param (key : string) (u : string) : option string :=
  snd <$> find (fun kv => String.eqb (fst kv) key) (query_params u).

(** The parameters of a connection URL, as the text between the
    separators. *)
Fixpoint join (sep : ascii) (pieces : list string) : string :=
  match pieces with
  | [] => EmptyString
  | [s] => s
  | s :: pieces => s +:+ String sep (join sep pieces)
  end.

Definition present (key : string) (v : option string) : list string :=
  match v with
  | Some v => [key +:+ "=" +:+ v]
  | None => []
  end.

Definition url_pieces (s t cid : option string) : list string :=
  "connect=1"
    :: present "secret" s ++ present "access_token" t ++ present "clientId" cid.

(** A value that can sit in the query as it is: no parameter separator and
    no fragment marker. *)
Definition url_safe (v : option string) : Prop :=
  match v with
  | Some v => has_char "&"%char v = false /\ has_char "#"%char v = false
  | None => True
  end.

(** The fields of a connection that [_buildUrl] appends, when set. *)
Definition set_value (v : option string) : option string :=
  if truthy_str v then v else None.

Definition set_clientId_value (c : Connection) : option string :=
  if String.eqb (clientId c) "" then None else Some (clientId c).

(** The base URL as the constructor assembles it. *)
Definition base_url (c : Connection) : Prop :=
  url c = (if secure c then "wss://" else "ws://") +:+ host c +:+ "?connect=1".

(** ** Sample configurations *)

Definition no_options : Config :=
  {| c_secure := false; c_clientId := None; c_secret := None;
     c_token := None; c_authCallback := VUndefined; c_host := None;
     c_retriesAmount := None; c_autoReconnect := None;
     c_noAutoConnect := false |}.

Definition with_token (t : string) (cfg : Config) : Config :=
  {| c_secure := c_secure cfg; c_clientId := c_clientId cfg;
     c_secret := c_secret cfg; c_token := Some t;
     c_authCallback := c_authCallback cfg; c_host := c_host cfg;
     c_retriesAmount := c_retriesAmount cfg;
     c_autoReconnect := c_autoReconnect cfg;
     c_noAutoConnect := c_noAutoConnect cfg |}.

Definition with_secret (s : string) (cfg : Config) : Config :=
  {| c_secure := c_secure cfg; c_clientId := c_clientId cfg;
     c_secret := Some s; c_token := c_token cfg;
     c_authCallback := c_authCallback cfg; c_host := c_host cfg;
     c_retriesAmount := c_retriesAmount cfg;
     c_autoReconnect := c_autoReconnect cfg;
     c_noAutoConnect := c_noAutoConnect cfg |}.

Definition with_host (h : string) (cfg : Config) : Config :=
  {| c_secure := c_secure cfg; c_clientId := c_clientId cfg;
     c_secret := c_secret cfg; c_token := c_token cfg;
     c_authCallback := c_authCallback cfg; c_host := Some h;
     c_retriesAmount := c_retriesAmount cfg;
     c_autoReconnect := c_autoReconnect cfg;
     c_noAutoConnect := c_noAutoConnect cfg |}.

Definition without_connect (cfg : Config) : Config :=
  {| c_secure := c_secure cfg; c_clientId := c_clientId cfg;
     c_secret := c_secret cfg; c_token := c_token cfg;
     c_authCallback := c_authCallback cfg; c_host := c_host cfg;
     c_retriesAmount := c_retriesAmount cfg;
     c_autoReconnect := c_autoReconnect cfg;
     c_noAutoConnect := true |}.

(** [{host: "localhost:8081", token: "abc"}] *)
Definition scenario_config : Config :=
  with_host "localhost:8081" (with_token "abc" no_options).

Definition with_retries (n : Z) (cfg : Config) : Config :=
  {| c_secure := c_secure cfg; c_clientId := c_clientId cfg;
     c_secret := c_secret cfg; c_token := c_token cfg;
     c_authCallback := c_authCallback cfg; c_host := c_host cfg;
     c_retriesAmount := Some n;
     c_autoReconnect := c_autoReconnect cfg;
     c_noAutoConnect := c_noAutoConnect cfg |}.

(** The connection [new Connection(client, cfg)] returns, for the sample
    runs below; where construction throws there is no connection, and a
    blank record stands in. *)
Definition constructed (cfg : Config) : Connection :=
  match constructor cfg None with
  | Normal c => c
  | Throw _ =>
      {| secure := false; state := initialized; clientId := "";
         connectionId := None; secret := None; token := None; host := "";
         url := ""; options := {| retriesAmount := 7; autoReconnect := true;
                                  noAutoConnect := true |};
         socket := None; reconnectTimeout := None; currentRetries := 0;
         _callbacks := ∅; timers := ∅; transports := ∅; heap := ∅;
         next_handle := 1; trace := [] |}
  end.

(** A connection built with [{token: "abc", noAutoConnect: true}]: no
    transport has been opened. *)
Definition idle : Connection :=
  constructed (without_connect (with_token "abc" no_options)).

(** ** The reconnection policy as a machine *)

(** The two things the policy does: arming the timer ([_setupReconnect])
    and the timer's callback running ([_reconnect]). *)
Inductive policy_step := Arm | Fire.

Definition policy_run (s : policy_step) : M unit :=
  match s with
  | Arm => _setupReconnect
  | Fire => _reconnect
  end.

Fixpoint policy_runs (steps : list policy_step) : M unit :=
  match steps with
  | [] => ret tt
  | s :: steps => policy_run s >> policy_runs steps
  end.

(** The retry budget is used up: [currentRetries >= retriesAmount]. *)
Definition exhausted (c : Connection) : Prop :=
  retriesAmount (options c) <= currentRetries c.

(** What arming leaves of the timer state when nothing is scheduled: the
    previous timer, if any, is cancelled and the handle is null. *)
Definition disarmed (c : Connection) : Connection :=
  match reconnectTimeout c with
  | Some h => set_reconnectTimeout None (set_timers (delete h (timers c)) c)
  | None => c
  end.

(** What arming does below the ceiling: after cancelling the previous
    timer, a one-second timer running [_reconnect] is scheduled under a
    fresh handle. *)
Definition armed (c : Connection) : Connection :=
  let d := disarmed c in
  let h := next_handle d in
  set_reconnectTimeout (Some h)
    (set_next_handle (S h)
       (set_timers (<[h := (TReconnect, 1000)]> (timers d)) d)).

(** ** Sample collaborators and messages *)

(** An envelope with no field set. *)
Definition empty_envelope : envelope :=
  {| e_reqId := None; e_action := VUndefined; e_clientId := None;
     e_connectionId := None; e_socketId := None; e_fields := [] |}.

(** A codec standing in for [MessageMaster] in the sample runs; they only
    handle structured data, so what it does to text does not matter. *)
Definition sample_codec : MessageMaster :=
  {| parse := fun _ => empty_envelope; stringify := fun _ _ => "{}" |}.

(** Modelled from the spec: the value of [Message.ACTION.CONNECTED]
    ([lib/Message.js] is not among the sources); the handshake scenario of
    the specification uses the action ["connected"]. *)
Definition sample_actions : Message :=
  {| ACTION_CONNECTED := VStr "connected" |}.

(** [{action: "connected", clientId: "c1", connectionId: "k9"}] *)
Definition handshake : envelope :=
  {| e_reqId := None; e_action := VStr "connected"; e_clientId := Some "c1";
     e_connectionId := Some "k9"; e_socketId := None; e_fields := [] |}.

(** A response correlated with request [reqId]. *)
Definition response (reqId : string) : envelope :=
  {| e_reqId := Some reqId; e_action := VUndefined; e_clientId := None;
     e_connectionId := None; e_socketId := None; e_fields := [] |}.

(** A call made on a user function. *)
Definition is_invoke (e : effect) : Prop :=
  match e with
  | Invoke _ _ => True
  | _ => False
  end.

(** ** Sample runs *)

(** The transport reports that it could not connect. *)
Definition transport_failure : option transport_error :=
  Some {| err_type := Some "TransportError" |}.

(** The pending reconnection timer expires. *)
Definition fire_reconnect : M unit :=
  let* c := get in
  match reconnectTimeout c with
  | Some h => fire h
  | None => ret tt
  end.

(** One automatic attempt that fails: the reconnection timer expires and
    the transport opened by the attempt reports a transport error. *)
Definition failed_attempt : M unit :=
  fire_reconnect >> onConnectError transport_failure.

Fixpoint failed_attempts (n : nat) : M unit :=
  match n with
  | O => ret tt
  | S n => failed_attempt >> failed_attempts n
  end.

(** The connection is in the middle of an episode of automatic retries: the
    last attempt failed, and the timer of the next one is pending unless
    the budget is used up. *)
Definition retrying (c : Connection) : Prop :=
  autoReconnect (options c) = true
  /\ hasAuth c = true
  /\ state c = failed
  /\ match reconnectTimeout c with
     | Some h => ~ exhausted c /\ timers c !! h = Some (TReconnect, 1000)
     | None => exhausted c
     end.

(** An episode with a ceiling of two retries: the first connection attempt
    fails, and so do the two automatic attempts that follow. *)
Definition worn_out : Connection :=
  exec (onConnectError transport_failure >> failed_attempts 2)
    (constructed (with_retries 2 (with_token "abc" no_options))).

(** ** Specifications of methods *)

(** Total correctness of a method: from a state satisfying [P] it returns
    normally, in a state satisfying [Q]. *)
Definition returns {A} (P : Connection -> Prop) (m : M A)
    (Q : A -> Connection -> Prop) : Prop :=
  forall c, P c -> exists a c', m c = (c', Normal a) /\ Q a c'.

(** A method keeps a property of the connection, however it completes. *)
Definition preserves {A} (F : Connection -> Prop) (m : M A) : Prop :=
  forall c, F c -> F (exec m c).

(** The fields the base URL is made of. *)
Definition same_address (c0 c : Connection) : Prop :=
  url c = url c0 /\ host c = host c0 /\ secure c = secure c0.


(** * The connection as a reactive system *)

(** ** REST helper *)

(** ['' + postfix] for an argument that may be [undefined] *)
Definition String_of_argument (s : option string) : string :=
  match s with Some s => s | None => "undefined" end.

(** [getRestUrl(postfix)], lines 393-402. *)
Definition getRestUrl (postfix : option string) (c : Connection) : string :=
  if String.eqb (host c) "" then "http://localhost:8081"
  else
    let postfix :=
      match postfix with
      | Some p =>
          if negb (String.eqb p "")
             && negb (String.eqb (charAt p 0) "/")
          then Some ("/" +:+ p)
          else postfix
      | None => postfix
      end in
    let prefix := if secure c then "https" else "http" in
    prefix +:+ "://" +:+ host c +:+ String_of_argument postfix.

(** ** Events *)

(** Everything that can happen to a connection once it is built: the
    caller's requests, the callbacks of the transport, the completion of
    the auth callback and the expiry of a timer. *)
Inductive event :=
| Connect
| Close
| Send (message : value)
| SendCallback (draw : nat -> nat) (message cb : value) (timeout : option Z)
| AddCallback (reqId : string) (cb : value) (timeout : option Z)
| ExecCallback (reqId : string) (err data : arg)
| AuthDone (err : arg) (tokenOrData : token_or_data)
| TransportOpen
| TransportClose
| TransportError (err : option transport_error)
| ConnectError (err : option transport_error)
| TransportMessage (p : payload)
| TimerExpires (h : nat).

Section Dispatch.

Context `{MessageMaster} `{Message}.

Definition dispatch (e : event) : M unit :=
  match e with
  | Connect => connect
  | Close => close
  | Send message => send message
  | SendCallback draw message cb timeout =>
      sendCallback draw message cb timeout
  | AddCallback reqId cb timeout => _addCallback reqId cb timeout
  | ExecCallback reqId err data => _execCallback reqId err data
  | AuthDone err tokenOrData => authDone err tokenOrData
  | TransportOpen => onOpen
  | TransportClose => onClose
  | TransportError err => onError err
  | ConnectError err => onConnectError err
  | TransportMessage p => onMessage p
  | TimerExpires h => fire h
  end.

(** A handler that throws hands the exception to its caller; the
    connection goes on from the state the handler left. *)
Fixpoint run (events : list event) (c : Connection) : Connection :=
  match events with
  | [] => c
  | e :: events => run events (exec (dispatch e) c)
  end.

End Dispatch.

(** ** Invariants *)

(** At most one reconnection timer is pending, and [reconnectTimeout] is
    its handle. *)
Definition single_timer (c : Connection) : Prop :=
  forall h d, timers c !! h = Some (TReconnect, d) -> reconnectTimeout c = Some h.


(** The options and credentials set at construction. *)
Definition same_options (c0 c : Connection) : Prop :=
  options c = options c0 /\ secret c = secret c0.

(** What holds of a connection right after construction, besides its
    state and transport. *)
Definition fresh (c : Connection) : Prop :=
  timers c = ∅
  /\ reconnectTimeout c = None
  /\ currentRetries c = 0
  /\ _callbacks c = ∅
  /\ heap c = ∅.

(** ** Sample event sequences *)

(** A session that connects, loses its transport, retries once, fails,
    and is then closed by the caller. *)
Definition sample_session : list event :=
  [TransportOpen; TransportMessage (Decoded handshake); TransportClose;
   TimerExpires 2; ConnectError transport_failure; Close; TransportClose].

(** ** What [connect] does when it goes ahead *)

(** The calls that take the previous transport, if any, out of service. *)
Definition retire (sock : option nat) : list effect :=
  match sock with
  | Some s =>
      [SocketRemoveAllListeners s "open"; SocketRemoveAllListeners s "close";
       SocketRemoveAllListeners s "error";
       SocketRemoveAllListeners s "message"; SocketClose s]
  | None => []
  end.

(** The calls that open transport [s] at [u] and install the one-shot
    listeners. *)
Definition open_transport (s : nat) (u : string) : list effect :=
  [Eio s u; SocketRemoveAllListeners s "open";
   SocketRemoveAllListeners s "error"; SocketOnce s "open" LOnOpen;
   SocketOnce s "error" LConnectError].

(** The connection after [connect] started an attempt. *)
Definition attempting (c : Connection) : Connection :=
  let s := next_handle c in
  set_trace (trace c ++ retire (socket c) ++ open_transport s (_buildUrl c))
    (set_socket (Some s)
       (set_transports (<[s := "opening"]> (transports c))
          (set_next_handle (S s) (set_state connecting c)))).

(** The connection after [fail(err)]. *)
Definition failed_with (err : arg) (c : Connection) : Connection :=
  set_trace (trace c ++ [Emit "failed" [err]]) (set_state failed c).

(** ** Listeners *)

(** The (transport, event) pairs that may have a listener after a trace:
    [on] and [once] add one, [removeAllListeners] clears the pair.  A
    one-shot listener is counted until it is removed explicitly, so the
    set bounds the real one from above. *)
Definition listen (ls : gset (nat * string)) (e : effect)
  : gset (nat * string) :=
  match e with
  | SocketOn s ev _ | SocketOnce s ev _ => {[ (s, ev) ]} ∪ ls
  | SocketRemoveAllListeners s ev => ls ∖ {[ (s, ev) ]}
  | _ => ls
  end.

Definition listeners (tr : list effect) : gset (nat * string) :=
  foldl listen ∅ tr.

(** The four events the connection listens to. *)
Definition is_kind (ev : string) : bool :=
  existsb (String.eqb ev) ["open"; "close"; "error"; "message"].

(** Only the current transport has listeners. *)
Definition attached_to_current (c : Connection) : Prop :=
  forall s ev,
    (s, ev) ∈ listeners (trace c) -> socket c = Some s /\ is_kind ev = true.

(** ** Helpers for the statements *)

(** The token after the auth callback's reply was looked at (lines 67-73):
    a bare string always replaces it, an object only through a truthy
    [token] field. *)
Definition reply_token (d : token_or_data) (old : option string)
  : option string :=
  match d with
  | TString s => Some s
  | TObject tok => if truthy_str tok then tok else old
  | TOther => old
  end.

(** The transports a trace opened. *)
Definition opened (tr : list effect) : list nat :=
  omap (fun e => match e with Eio s _ => Some s | _ => None end) tr.

(** The path of a REST URL without its leading slash. *)
Definition without_slash (p : string) : string :=
  match p with
  | String "/" rest => rest
  | _ => p
  end.

(** A configuration whose only credential source is an auth callback. *)
Definition with_authCallback (f : value) (cfg : Config) : Config :=
  {| c_secure := c_secure cfg; c_clientId := c_clientId cfg;
     c_secret := c_secret cfg; c_token := c_token cfg;
     c_authCallback := f; c_host := c_host cfg;
     c_retriesAmount := c_retriesAmount cfg;
     c_autoReconnect := c_autoReconnect cfg;
     c_noAutoConnect := c_noAutoConnect cfg |}.

(** No event of the list is the completion of the auth callback. *)
Definition no_auth_reply (events : list event) : Prop :=
  Forall (fun e => match e with AuthDone _ _ => False | _ => True end) events.

(** Without credentials: no usable token or secret, and the transports
    opened so far and the current one are as given. *)
Definition locked_out (l : list nat) (s0 : option nat) (c : Connection)
  : Prop :=
  hasAuth c = false /\ opened (trace c) = l /\ socket c = s0.
(** * Properties *)

(** ** Reasoning about methods *)

Ltac unfold_monad :=
  repeat progress
    unfold when, emit, on_socket, readyState, eio, perform, clearTimeout,
      setTimeout, throw, modify, get, bind, ret in *.

Lemma returns_ret {A} (P : Connection -> Prop) (a : A)
    (Q : A -> Connection -> Prop) :
  (forall c, P c -> Q a c) -> returns P (ret a) Q.
Proof. intros H c HP. exists a, c. auto. Qed.

Lemma returns_bind {A B} P (m : M A) R (k : A -> M B) Q :
  returns P m R -> (forall a, returns (R a) (k a) Q) -> returns P (bind m k) Q.
Proof.
  intros Hm Hk c HP. destruct (Hm c HP) as (a & c1 & E1 & HR).
  destruct (Hk a c1 HR) as (b & c2 & E2 & HQ).
  exists b, c2. unfold bind. rewrite E1. auto.
Qed.

Lemma returns_weaken {A} (P P' : Connection -> Prop) (m : M A)
    (Q Q' : A -> Connection -> Prop) :
  returns P' m Q' -> (forall c, P c -> P' c) -> (forall a c, Q' a c -> Q a c) ->
  returns P m Q.
Proof.
  intros Hm HP HQ c Hc. destruct (Hm c (HP c Hc)) as (a & c' & E & H').
  eauto.
Qed.

Lemma returns_modify (P : Connection -> Prop) f
    (Q : unit -> Connection -> Prop) :
  (forall c, P c -> Q tt (f c)) -> returns P (modify f) Q.
Proof. intros H c HP. exists tt, (f c). auto. Qed.

Lemma returns_get (P : Connection -> Prop) :
  returns P get (fun a c => a = c /\ P c).
Proof. intros c HP. exists c, c. auto. Qed.

Lemma returns_when (P : Connection -> Prop) (b : bool) m Q :
  (b = true -> returns P m Q) -> (b = false -> forall c, P c -> Q tt c) ->
  returns P (when b m) Q.
Proof.
  intros Ht Hf. destruct b; simpl; [auto|].
  intros c HP. exists tt, c. auto.
Qed.

(** ** Transport session: connecting *)

(** Outside the [connected] state, [connect] never reads the transport's
    [readyState] and cannot throw. *)
Lemma connect_returns :
  returns (fun c => state c ≠ connected) connect (fun _ _ => True).
Proof.
  intros c Hs. exists tt. unfold connect, fail, clearSocketListeners.
  unfold_monad. simpl.
  rewrite bool_decide_eq_false_2 by done.
  destruct (hasAuth c); simpl; [|eauto].
  destruct (socket c) eqn:E; simpl; rewrite ?E; simpl; eauto.
Qed.

Lemma fail_returns err P :
  returns P (fail err) (fun _ c => state c = failed).
Proof. intros c _. exists tt. unfold fail. unfold_monad. simpl. eauto. Qed.

Lemma authDone_returns err d :
  returns (fun c => state c ≠ connected) (authDone err d) (fun _ _ => True).
Proof.
  unfold authDone. destruct (arg_truthy err).
  { eapply returns_weaken;
      [apply (fail_returns err (fun _ => True))|cbv beta; auto..]. }
  eapply returns_bind with (R := fun _ c => state c ≠ connected).
  { destruct d as [s|tok|].
    - apply returns_modify. auto.
    - apply returns_when; [intros _; apply returns_modify|]; auto.
    - apply returns_ret. auto. }
  intros _. eapply returns_bind; [apply returns_get|].
  intros c. simpl. destruct (truthy_str (token c)); simpl.
  - eapply returns_weaken; [apply connect_returns|..]; simpl; intuition.
  - eapply returns_weaken;
      [apply (fail_returns _ (fun _ => True))|cbv beta; auto..].
Qed.

(** ** Auth resolver: the constructor's credential check *)

(** C5, as the code has it: construction throws the "No auth keys passed"
    error exactly when [secret], [token] and [authCallback] are all falsy
    (absent, null or the empty string); as soon as one of them is truthy
    the constructor returns a connection. *)
Theorem constructor_auth_keys cfg reply :
  if truthy_str (c_secret cfg) || truthy_str (c_token cfg)
     || truthy (c_authCallback cfg)
  then exists c, constructor cfg reply = Normal c
  else constructor cfg reply = Throw (Error "No auth keys passed").
Proof.
  unfold constructor.
  destruct (truthy_str (c_secret cfg) || truthy_str (c_token cfg)
            || truthy (c_authCallback cfg)) eqn:E.
  2: { apply orb_false_elim in E as [E ->].
       apply orb_false_elim in E as [-> ->]. reflexivity. }
  replace (negb (truthy_str (c_secret cfg)) && negb (truthy_str (c_token cfg))
           && negb (truthy (c_authCallback cfg))) with false
    by (destruct (truthy_str (c_secret cfg)), (truthy_str (c_token cfg)),
          (truthy (c_authCallback cfg)); done).
  cbv zeta.
  match goal with
  | |- context [?body (Build_Connection ?a1 ?a2 ?a3 ?a4 ?a5 ?a6 ?a7 ?a8 ?a9
                         ?a10 ?a11 ?a12 ?a13 ?a14 ?a15 ?a16 ?a17 ?a18)] =>
      set (this := Build_Connection a1 a2 a3 a4 a5 a6 a7 a8 a9 a10 a11 a12
                     a13 a14 a15 a16 a17 a18);
      assert (returns (fun c => c = this) body (fun _ _ => True)) as Hbody
  end.
  { set (deferred := isFunction (c_authCallback cfg)).
    eapply returns_bind with
      (R := fun _ c => deferred = false -> state c = initialized).
    { apply returns_when; [intros Hd|intros _ c -> _; reflexivity].
      eapply returns_bind with (R := fun _ c => state c = connecting);
        [apply returns_modify; auto|intros _].
      eapply returns_bind with (R := fun _ c => state c ≠ connected);
        [apply returns_modify; simpl; congruence|intros _].
      destruct reply as [[err d]|].
      - eapply returns_weaken; [apply authDone_returns|cbv beta; auto..].
        intros; congruence.
      - apply returns_ret. intros; congruence. }
    intros _.
    eapply returns_bind with
      (R := fun _ c => (deferred = false -> state c = initialized)
                       /\ (deferred = true -> noAutoConnect (options c) = true)).
    { apply returns_modify. simpl. intros c Hc. split; [exact Hc|].
      intros ->. reflexivity. }
    intros _.
    do 4 (eapply returns_bind with
      (R := fun _ c => (deferred = false -> state c = initialized)
                       /\ (deferred = true -> noAutoConnect (options c) = true));
      [apply returns_modify; cbv beta; simpl; auto|intros _]).
    eapply returns_bind; [apply returns_get|]. intros c. simpl.
    apply returns_when; [|auto].
    intros Hn. eapply returns_weaken; [apply connect_returns|..]; simpl; auto.
    intros c' (-> & Hi & Hd). destruct deferred.
    - rewrite Hd in Hn; done.
    - rewrite Hi; done. }
  destruct (Hbody this eq_refl) as ([] & c' & -> & _). eauto.
Qed.

(** In particular a configuration with none of the three throws. *)
Lemma constructor_no_credentials cfg reply :
  c_secret cfg = None -> c_token cfg = None ->
  c_authCallback cfg = VUndefined ->
  constructor cfg reply = Throw (Error "No auth keys passed").
Proof. unfold constructor. intros -> -> ->. reflexivity. Qed.

(** C5 as stated fails: a configuration whose [token] is present but is
    the empty string is rejected like one with no credential at all. *)
Lemma constructor_empty_token_rejected :
  ~ (is_Some (c_token (with_token "" no_options)) ->
     constructor (with_token "" no_options) None
       <> Throw (Error "No auth keys passed")).
Proof. intros H. apply H; [by eexists|reflexivity]. Qed.

(** ** Transport session: the connection URL *)

(** C7: with [host = "localhost:8081"], [token = "abc"] and every other
    option left out, the URL builder yields
    ["ws://localhost:8081?connect=1&access_token=abc"], an instance of the
    grammar with scheme [ws] and only the [access_token] parameter; it is
    the URL the transport is opened with. *)
Theorem buildUrl_scenario :
  exists c,
    constructor scenario_config None = Normal c
    /\ _buildUrl c = "ws://localhost:8081?connect=1&access_token=abc"
    /\ _buildUrl c = connection_url false "localhost:8081" None (Some "abc") None
    /\ head (trace c)
       = Some (Eio 1 "ws://localhost:8081?connect=1&access_token=abc").
Proof. eexists. split; [vm_compute; reflexivity|]. by vm_compute. Qed.

(** ** Reconnection policy *)

Lemma _setupReconnect_exhausted c :
  exhausted c -> _setupReconnect c = (disarmed c, Normal tt).
Proof.
  unfold exhausted, _setupReconnect, disarmed. intros Hx.
  apply Z.leb_le in Hx. unfold_monad.
  destruct (reconnectTimeout c); simpl; rewrite Hx; reflexivity.
Qed.

Lemma _reconnect_exhausted c :
  exhausted c -> _reconnect c = (c, Normal tt).
Proof.
  unfold exhausted, _reconnect. intros Hx. apply Z.leb_le in Hx.
  unfold_monad. rewrite Hx. destruct (autoReconnect (options c)); reflexivity.
Qed.

Lemma disarmed_fields c :
  exhausted c ->
  exhausted (disarmed c)
  /\ reconnectTimeout (disarmed c) = None
  /\ timers (disarmed c) ⊆ timers c
  /\ trace (disarmed c) = trace c
  /\ state (disarmed c) = state c
  /\ socket (disarmed c) = socket c
  /\ currentRetries (disarmed c) = currentRetries c.
Proof.
  unfold disarmed, exhausted. intros Hx.
  destruct (reconnectTimeout c) eqn:E; simpl; repeat split; auto.
  apply delete_subseteq.
Qed.

(** Arming below the ceiling: the previous timer is cancelled and a fresh
    one-second timer running [_reconnect] is scheduled. *)
Lemma _setupReconnect_below c :
  ~ exhausted c -> _setupReconnect c = (armed c, Normal tt).
Proof.
  unfold exhausted, _setupReconnect, armed, disarmed. intros Hx.
  assert ((retriesAmount (options c) <=? currentRetries c) = false) as Hb
    by (apply Z.leb_gt; lia).
  unfold_monad.
  destruct (reconnectTimeout c); simpl; rewrite Hb; reflexivity.
Qed.

Lemma _setupReconnect_arms c :
  ~ exhausted c ->
  let h := next_handle c in
  let c' := exec _setupReconnect c in
  result _setupReconnect c = Normal tt
  /\ reconnectTimeout c' = Some h
  /\ timers c' = <[h := (TReconnect, 1000)]> (timers (disarmed c))
  /\ trace c' = trace c
  /\ state c' = state c.
Proof.
  intros Hx. unfold exec, result. rewrite (_setupReconnect_below c Hx).
  unfold armed, disarmed. destruct (reconnectTimeout c); simpl; auto.
Qed.

(** When [connect] is reached from the timer it shows in the trace: it
    either fails for lack of credentials or opens a transport. *)
Lemma connect_extends_trace c :
  state c ≠ connected ->
  exists e es, trace (exec connect c) = trace c ++ e :: es.
Proof.
  intros Hs. unfold exec, connect, fail, clearSocketListeners.
  unfold_monad. simpl.
  rewrite bool_decide_eq_false_2 by done.
  destruct (hasAuth c); simpl; [|eauto].
  destruct (socket c) eqn:E; simpl; rewrite ?E; simpl;
    rewrite <- ?app_assoc; simpl; eauto.
Qed.

Lemma policy_runs_exhausted steps : forall c,
  exhausted c ->
  exists c',
    policy_runs steps c = (c', Normal tt)
    /\ exhausted c'
    /\ timers c' ⊆ timers c
    /\ trace c' = trace c
    /\ state c' = state c
    /\ socket c' = socket c
    /\ currentRetries c' = currentRetries c.
Proof.
  induction steps as [|s steps IH]; intros c Hx.
  - exists c. simpl. unfold ret. repeat split; auto.
  - assert (exists c1, policy_run s c = (c1, Normal tt)
              /\ exhausted c1 /\ timers c1 ⊆ timers c /\ trace c1 = trace c
              /\ state c1 = state c /\ socket c1 = socket c
              /\ currentRetries c1 = currentRetries c) as (c1 & E1 & Hx1 & H1).
    { destruct s; simpl.
      - exists (disarmed c). split; [by apply _setupReconnect_exhausted|].
        destruct (disarmed_fields c Hx) as (? & _ & ?). auto.
      - exists c. split; [by apply _reconnect_exhausted|]. repeat split; auto. }
    destruct (IH c1 Hx1) as (c2 & E2 & Hx2 & Ht & Htr & Hst & Hso & Hcr).
    exists c2. simpl. unfold bind. rewrite E1, E2.
    destruct H1 as (Ht1 & Htr1 & Hst1 & Hso1 & Hcr1).
    repeat split; auto; try congruence.
    etrans; eassumption.
Qed.

(** Below the ceiling and outside [connecting] and [connected], the timer's
    callback counts one more retry and calls [connect]. *)
Lemma _reconnect_attempts c :
  autoReconnect (options c) = true ->
  ~ exhausted c ->
  state c <> connecting -> state c <> connected ->
  _reconnect c = connect (set_currentRetries (currentRetries c + 1) c).
Proof.
  unfold exhausted, _reconnect, isConnected. intros Ha Hx H1 H2.
  assert ((retriesAmount (options c) <=? currentRetries c) = false) as Hb
    by (apply Z.leb_gt; lia).
  unfold_monad. rewrite Ha, Hb. cbn [negb].
  rewrite (bool_decide_eq_false_2 (state c = connected)) by done.
  rewrite !bool_decide_eq_true_2 by done. reflexivity.
Qed.

(** A failed automatic attempt uses up one retry and leaves the connection
    ready for the next one, or disarmed when it was the last. *)
Lemma failed_attempt_counts c :
  retrying c -> ~ exhausted c ->
  exists c',
    failed_attempt c = (c', Normal tt)
    /\ retrying c'
    /\ currentRetries c' = currentRetries c + 1
    /\ options c' = options c.
Proof.
  intros (Ha & Hauth & Hs & Ht) Hx.
  destruct (reconnectTimeout c) as [h|] eqn:Eh; [|contradiction].
  destruct Ht as [_ Ht].
  set (c1 := set_currentRetries (currentRetries c + 1)
               (set_timers (delete h (timers c)) c)).
  assert (fire_reconnect c = connect c1) as Hfire.
  { unfold fire_reconnect, fire, run_task. unfold_monad. rewrite Eh, Ht.
    simpl. rewrite (_reconnect_attempts (set_timers (delete h (timers c)) c));
      simpl; auto; congruence. }
  assert (exists c2, connect c1 = (c2, Normal tt)
            /\ state c2 = connecting /\ reconnectTimeout c2 = Some h
            /\ options c2 = options c /\ hasAuth c2 = true
            /\ currentRetries c2 = currentRetries c + 1)
    as (c2 & Ec & Hs2 & Hh2 & Ho2 & Hauth2 & Hr2).
  { unfold connect, clearSocketListeners. unfold_monad. simpl.
    rewrite bool_decide_eq_false_2 by (rewrite Hs; done).
    change (hasAuth c1) with (hasAuth c). rewrite Hauth. simpl.
    destruct (socket c) eqn:E; repeat (progress (simpl; rewrite ?E));
      eexists; (split; [reflexivity|]); simpl; auto. }
  set (c3 := set_trace
                (trace c2 ++ [Emit "failed" [ASockErr transport_failure]])
                (set_state failed c2)).
  assert (failed_attempt c = _setupReconnect c3) as ->.
  { unfold failed_attempt, bind. rewrite Hfire, Ec. reflexivity. }
  destruct (decide (exhausted c3)) as [Hx3|Hx3].
  - rewrite (_setupReconnect_exhausted c3 Hx3). eexists. split; [reflexivity|].
    unfold retrying, exhausted, disarmed in *. simpl in *. rewrite Hh2. simpl.
    rewrite Ho2, Hr2 in *. auto.
  - rewrite (_setupReconnect_below c3 Hx3). eexists. split; [reflexivity|].
    unfold retrying, exhausted, armed, disarmed in *. simpl in *.
    rewrite Hh2. simpl. rewrite Ho2, Hr2 in *.
    repeat split; auto. by rewrite lookup_insert_eq.
Qed.

(** After as many failed automatic attempts as the budget has left, the
    counter has reached [retriesAmount] and no timer is scheduled. *)
Lemma failed_attempts_exhaust n : forall c,
  retrying c ->
  currentRetries c + Z.of_nat n = retriesAmount (options c) ->
  exists c',
    failed_attempts n c = (c', Normal tt)
    /\ retrying c'
    /\ exhausted c'
    /\ currentRetries c' = retriesAmount (options c')
    /\ reconnectTimeout c' = None.
Proof.
  induction n as [|n IH]; intros c Hr Hn.
  - assert (exhausted c) as Hx by (unfold exhausted; lia).
    exists c. split; [reflexivity|]. split; [exact Hr|]. split; [exact Hx|].
    split; [lia|]. destruct Hr as (_ & _ & _ & Ht).
    destruct (reconnectTimeout c); [|reflexivity]. by destruct Ht.
  - assert (~ exhausted c) as Hx by (unfold exhausted; lia).
    destruct (failed_attempt_counts c Hr Hx) as (c1 & E1 & Hr1 & Hc1 & Ho1).
    destruct (IH c1 Hr1) as (c2 & E2 & H2); [rewrite Hc1, Ho1; lia|].
    exists c2. split; [|exact H2].
    simpl. unfold bind. by rewrite E1, E2.
Qed.

(** C3: once the retry counter is at or above [retriesAmount], arming
    schedules nothing (it only cancels a timer that is still pending and
    leaves the handle null), the timer's callback returns without touching
    the connection, and so no sequence of armings and firings calls
    [connect]: the trace, the state, the transport and the counter stay as
    they are and no timer is added. *)
Theorem reconnection_stops_when_exhausted c steps :
  exhausted c ->
  _setupReconnect c = (disarmed c, Normal tt)
  /\ reconnectTimeout (disarmed c) = None
  /\ timers (disarmed c) ⊆ timers c
  /\ _reconnect c = (c, Normal tt)
  /\ exists c',
       policy_runs steps c = (c', Normal tt)
       /\ exhausted c'
       /\ timers c' ⊆ timers c
       /\ trace c' = trace c
       /\ state c' = state c
       /\ socket c' = socket c
       /\ currentRetries c' = currentRetries c.
Proof.
  intros Hx. destruct (disarmed_fields c Hx) as (_ & Hn & Ht & _).
  split; [by apply _setupReconnect_exhausted|].
  split; [exact Hn|]. split; [exact Ht|].
  split; [by apply _reconnect_exhausted|].
  by apply policy_runs_exhausted.
Qed.

(** The sample episode ends with the budget used up and no timer pending. *)
Lemma worn_out_exhausted :
  exhausted worn_out /\ currentRetries worn_out = 2 /\ state worn_out = failed
  /\ timers worn_out = ∅.
Proof. vm_compute. repeat split; discriminate. Qed.

(** After three failed attempts with a ceiling of two retries the budget is
    used up, and the policy is inert. *)
Lemma reconnection_stops_when_exhausted_witness :
  exhausted worn_out
  /\ _reconnect worn_out = (worn_out, Normal tt)
  /\ exists c',
       policy_runs [Arm; Fire; Fire; Arm] worn_out = (c', Normal tt)
       /\ trace c' = trace worn_out.
Proof.
  assert (exhausted worn_out) as Hx by (vm_compute; discriminate).
  destruct (reconnection_stops_when_exhausted worn_out [Arm; Fire; Fire; Arm] Hx)
    as (_ & _ & _ & Hf & c' & Hr & _ & _ & Htr & _).
  split; [exact Hx|]. split; [exact Hf|]. exists c'. split; assumption.
Defined.

(** ** Transport session: the close handler *)

(** C4: when the transport reports "close" in state [closing], the state
    becomes [closed], the closed event is emitted and the timer state is
    left alone; in any other state the state becomes [disconnected], the
    disconnected event is emitted and the reconnection policy is armed
    ([_setupReconnect] runs on the result). *)
Theorem onClose_transitions c :
  let c' := exec onClose c in
  result onClose c = Normal tt
  /\ if bool_decide (state c = closing)
     then state c' = closed
          /\ trace c' = trace c ++ [Emit "closed" []]
          /\ reconnectTimeout c' = reconnectTimeout c
          /\ timers c' = timers c
     else state c' = disconnected
          /\ trace c' = trace c ++ [Emit "disconnected" []]
          /\ onClose c
             = _setupReconnect
                 (set_trace (trace c ++ [Emit "disconnected" []])
                    (set_state disconnected c))
          /\ if bool_decide (exhausted c)
             then reconnectTimeout c' = None
                  /\ timers c' = timers (disarmed c)
             else reconnectTimeout c' = Some (next_handle c)
                  /\ timers c'
                     = <[next_handle c := (TReconnect, 1000)]>
                         (timers (disarmed c)).
Proof.
  set (d := set_trace (trace c ++ [Emit "disconnected" []])
              (set_state disconnected c)).
  assert (onClose c
          = if bool_decide (state c = closing)
            then (set_trace (trace c ++ [Emit "closed" []])
                    (set_state closed c), Normal tt)
            else _setupReconnect d) as Hoc.
  { unfold onClose. unfold_monad.
    destruct (bool_decide (state c = closing)); reflexivity. }
  unfold exec, result. rewrite Hoc. clear Hoc.
  destruct (bool_decide (state c = closing)) eqn:Hs; [simpl; auto|].
  destruct (bool_decide (exhausted c)) eqn:Hx.
  - apply bool_decide_eq_true_1 in Hx.
    assert (exhausted d) as Hxd by exact Hx.
    rewrite (_setupReconnect_exhausted d Hxd). simpl.
    destruct (disarmed_fields d Hxd) as (_ & Hn & _ & Htr & Hst & _).
    split; [reflexivity|]. repeat split; auto.
    unfold disarmed, d. simpl. destruct (reconnectTimeout c); reflexivity.
  - apply bool_decide_eq_false_1 in Hx.
    assert (~ exhausted d) as Hxd by exact Hx.
    destruct (_setupReconnect_arms d Hxd) as (Hr & Hh & Ht & Htr & Hst).
    unfold exec, result in *.
    split; [exact Hr|]. repeat split; auto.
    rewrite Ht. unfold disarmed, d. simpl.
    destruct (reconnectTimeout c); reflexivity.
Qed.

(** ** Callback registry *)

(** C6: registering a request id that already has a pending entry throws
    the duplicate-request error and leaves the connection, its registry and
    its timers exactly as they were. *)
Theorem addCallback_duplicate c reqId e cb t :
  _callbacks c !! reqId = Some e ->
  _addCallback reqId cb t c
  = (c, Throw (Error ("Could not make add callback operation with reqId: "
                       +:+ reqId))).
Proof.
  intros He. unfold _addCallback. unfold_monad.
  rewrite bool_decide_eq_true_2; [reflexivity|]. rewrite He. by eexists.
Qed.

(** Registering ["r1"] twice on a fresh connection: the second call throws. *)
Lemma addCallback_duplicate_witness :
  let c := exec (_addCallback "r1" (VFun 7) None) idle in
  _callbacks c !! "r1" = Some {| cb := VFun 7; timeout := 1 |}
  /\ _addCallback "r1" (VFun 8) (Some 500) c
     = (c, Throw (Error "Could not make add callback operation with reqId: r1")).
Proof.
  split; [reflexivity|].
  apply (addCallback_duplicate _ "r1" {| cb := VFun 7; timeout := 1 |}).
  reflexivity.
Defined.

(** ** Transport session: closing without a transport *)

(** C10: with a null transport handle, [close] sets the state to
    [closing], emits the closing event and then throws a [TypeError] at
    [this.socket.close()]; the listeners are not reached and the state is
    left at [closing]. *)
Theorem close_without_transport c :
  socket c = None ->
  close c
  = (set_trace (trace c ++ [Emit "closing" []]) (set_state closing c),
     Throw TypeError)
  /\ state (exec close c) = closing
  /\ state (exec close c) ≠ closed.
Proof.
  intros Hs. unfold exec, close. unfold_monad. simpl. rewrite Hs.
  repeat split; auto.
Qed.

(** A connection built with [noAutoConnect] has no transport; [close] on it
    throws and leaves it [closing]. *)
Lemma close_without_transport_witness :
  socket idle = None
  /\ state idle = initialized
  /\ result close idle = Throw TypeError
  /\ state (exec close idle) = closing.
Proof.
  assert (socket idle = None) as Hs by reflexivity.
  destruct (close_without_transport idle Hs) as (Hc & Hst & _).
  split; [exact Hs|]. split; [reflexivity|].
  split; [unfold result; rewrite Hc; reflexivity|exact Hst].
Defined.

(** Completing a call touches the registry, the timers and the trace only;
    the trace grows by at most the call of the stored handler. *)
Lemma _execCallback_frame reqId err data c :
  exists c1,
    _execCallback reqId err data c = (c1, Normal tt)
    /\ state c1 = state c
    /\ clientId c1 = clientId c
    /\ connectionId c1 = connectionId c
    /\ currentRetries c1 = currentRetries c
    /\ exists calls, trace c1 = trace c ++ calls /\ Forall is_invoke calls.
Proof.
  unfold _execCallback. unfold_monad.
  destruct (_callbacks c !! reqId) as [e|].
  - destruct (isFunction (cb e)); simpl; eexists; split; try reflexivity; simpl;
      repeat split; auto.
    + exists [Invoke (cb e) [err; data]]. split; [reflexivity|].
      by repeat constructor.
    + exists []. by rewrite app_nil_r.
  - exists c. repeat split; auto. exists []. by rewrite app_nil_r.
Qed.

(** ** Transport session: the handshake *)

Section Handshake.

Context `{MessageMaster} `{Message}.

(** C1, as the code has it: for every inbound envelope whose action is the
    reserved handshake action, [onMessage] resets the retry counter to 0,
    adopts a truthy [clientId], adopts [connectionId] or else [socketId]
    when one of them is truthy, sets the state to [connected] and emits
    the connected event, after at most the completion of a correlated
    call -- whatever the prior state, [closing] and [closed] included. *)
Theorem handshake_connects (p : payload) (c : Connection) :
  e_action (decode p) = ACTION_CONNECTED ->
  truthy ACTION_CONNECTED = true ->
  let data := decode p in
  let c' := exec (onMessage p) c in
  result (onMessage p) c = Normal tt
  /\ currentRetries c' = 0
  /\ state c' = connected
  /\ clientId c'
     = (if truthy_str (e_clientId data) then String_of (e_clientId data)
        else clientId c)
  /\ connectionId c'
     = (if truthy_str (e_connectionId data) || truthy_str (e_socketId data)
        then or_str (e_connectionId data) (e_socketId data)
        else connectionId c)
  /\ exists calls,
       trace c' = trace c ++ calls ++ [Emit "connected" []]
       /\ Forall is_invoke calls.
Proof.
  intros Ha Ht data c'. subst c'.
  assert (exists c1,
    (match e_reqId data with
     | Some reqId =>
         when (truthy_str (Some reqId)
               && bool_decide (is_Some (_callbacks c !! reqId)))
           (_execCallback reqId ANull (AData data))
     | None => ret tt
     end) c = (c1, Normal tt)
    /\ state c1 = state c /\ clientId c1 = clientId c
    /\ connectionId c1 = connectionId c
    /\ currentRetries c1 = currentRetries c
    /\ exists calls, trace c1 = trace c ++ calls /\ Forall is_invoke calls)
    as (c1 & E1 & _ & Hcl & Hco & _ & calls & Htr & Hcalls).
  { assert (exists c1, ret tt c = (c1, Normal tt)
      /\ state c1 = state c /\ clientId c1 = clientId c
      /\ connectionId c1 = connectionId c
      /\ currentRetries c1 = currentRetries c
      /\ exists calls, trace c1 = trace c ++ calls /\ Forall is_invoke calls)
      as Hskip.
    { exists c. repeat split; auto. exists []. by rewrite app_nil_r. }
    destruct (e_reqId data) as [reqId|]; [|exact Hskip].
    destruct (truthy_str (Some reqId)
              && bool_decide (is_Some (_callbacks c !! reqId)));
      [apply _execCallback_frame|exact Hskip]. }
  assert (onMessage p c
          = (when (truthy_str (e_clientId data))
               (modify (set_clientId (String_of (e_clientId data)))) >>
             when (truthy_str (e_connectionId data)
                   || truthy_str (e_socketId data))
               (modify (set_connectionId
                          (or_str (e_connectionId data) (e_socketId data)))) >>
             modify (set_currentRetries 0) >>
             modify (set_state connected) >>
             emit (state_name connected) []) c1) as Hom.
  { unfold onMessage. fold data. unfold bind at 1, get at 1.
    unfold bind at 1. rewrite E1. fold data in Ha. rewrite Ha, Ht.
    unfold strict_eq.
    rewrite bool_decide_eq_true_2 by reflexivity. reflexivity. }
  unfold exec, result. rewrite Hom. clear Hom. unfold_monad.
  destruct (truthy_str (e_clientId data)),
    (truthy_str (e_connectionId data) || truthy_str (e_socketId data));
    simpl; repeat split; auto;
    exists calls; rewrite Htr, <- app_assoc; auto.
Qed.

End Handshake.

(** C1 as stated fails: a handshake handled in the [closing] state (here
    right after [close()]) takes effect like in any other state. *)
Lemma handshake_fires_when_closing :
  let c := exec close (constructed (with_token "abc" no_options)) in
  let c' := exec (@onMessage sample_codec sample_actions (Decoded handshake)) c in
  state c = closing
  /\ state c' = connected
  /\ connectionId c' = Some "k9"
  /\ last (trace c') = Some (Emit "connected" []).
Proof. vm_compute. auto. Qed.

(** The handshake scenario of the specification, from the [failed] state. *)
Lemma handshake_connects_witness :
  let c := exec (onConnectError transport_failure)
             (constructed (with_token "abc" no_options)) in
  let c' := exec (@onMessage sample_codec sample_actions (Decoded handshake)) c in
  state c = failed
  /\ state c' = connected
  /\ currentRetries c' = 0
  /\ clientId c' = "c1"
  /\ connectionId c' = Some "k9".
Proof.
  intros c c'.
  destruct (@handshake_connects sample_codec sample_actions
              (Decoded handshake) c eq_refl eq_refl)
    as (_ & Hr & Hs & Hcl & Hco & _).
  split; [reflexivity|]. split; [exact Hs|]. split; [exact Hr|].
  split; [exact Hcl|exact Hco].
Defined.

(** The scenario of the specification: the handshake
    [{action: "connected", clientId: "c1", connectionId: "k9"}] received
    while [connecting]. *)
Example handshake_scenario :
  let c := constructed (with_token "abc" no_options) in
  let c' := exec (@onMessage sample_codec sample_actions (Decoded handshake)) c in
  state c = connecting
  /\ state c' = connected
  /\ clientId c' = "c1"
  /\ connectionId c' = Some "k9"
  /\ currentRetries c' = 0
  /\ trace c' = trace c ++ [Emit "connected" []].
Proof. vm_compute. auto 10. Qed.

(** ** Callback registry: timeouts *)

(** The key under which the timeout timer looks its entry up is the text
    of the error object, never the request id. *)
Lemma timeout_key_differs reqId :
  error_to_string (Error ("Operation timeout for callback: " +:+ reqId))
  <> reqId.
Proof.
  intros E. apply (f_equal String.length) in E.
  cbv [error_to_string String.append] in E. simpl in E. lia.
Qed.

(** When the timer of a registered call expires, [_execCallback] is
    entered with the error in place of the request id: unless some other
    call happens to be registered under the error's text, only the timer
    goes away -- the entry stays pending and its handler is not called. *)
Lemma timeout_leaves_entry c reqId cb t :
  _callbacks c !! reqId = None ->
  _callbacks c
    !! error_to_string (Error ("Operation timeout for callback: " +:+ reqId))
  = None ->
  let h := next_handle c in
  let c1 := exec (_addCallback reqId cb t) c in
  timers c1 !! h
  = Some (TExecCallback (Error ("Operation timeout for callback: " +:+ reqId)),
          or_num t 15000)
  /\ _callbacks c1 !! reqId = Some {| cb := cb; timeout := h |}
  /\ fire h c1 = (set_timers (delete h (timers c1)) c1, Normal tt).
Proof.
  intros Hfree Hkey h c1. subst c1 h.
  pose proof (timeout_key_differs reqId) as Hne.
  unfold exec, _addCallback. unfold_monad.
  rewrite bool_decide_eq_false_2 by (rewrite Hfree; by intros [? ?]).
  simpl. rewrite !lookup_insert_eq. split; [reflexivity|].
  split; [reflexivity|].
  unfold fire, run_task, _execCallback. unfold_monad. simpl.
  rewrite lookup_insert_eq. simpl.
  rewrite lookup_insert_ne by (intros E; apply Hne; symmetry; exact E).
  simpl in Hkey. rewrite Hkey. reflexivity.
Qed.

(** C2, evaluated: a call registered as ["r1"] whose timer expires is not
    completed -- no handler is called and the entry is still pending --
    and the response that arrives afterwards completes it. *)
Theorem timeout_does_not_complete :
  let c1 := exec (_addCallback "r1" (VFun 7) (Some 1000)) idle in
  let c2 := exec (fire 1) c1 in
  let c3 := exec (@onMessage sample_codec sample_actions
                    (Decoded (response "r1"))) c2 in
  timers c1 !! 1%nat
  = Some (TExecCallback (Error "Operation timeout for callback: r1"), 1000)
  /\ timers c2 = ∅
  /\ trace c2 = []
  /\ _callbacks c2 !! "r1" = Some {| cb := VFun 7; timeout := 1 |}
  /\ trace c3 = [Invoke (VFun 7) [ANull; AData (response "r1")]]
  /\ _callbacks c3 !! "r1" = None.
Proof. vm_compute. auto 10. Qed.

(** ** Callback registry: requests sent with a callback *)

Lemma or_default_nonempty a dflt : dflt <> "" -> or_default a dflt <> "".
Proof.
  intros Hd. unfold or_default. destruct a as [s|]; [|exact Hd].
  destruct (String.eqb s "") eqn:E; [exact Hd|]. by apply String.eqb_neq.
Qed.

Lemma append_nonempty (s1 s2 : string) : s2 <> "" -> s1 +:+ s2 <> "".
Proof.
  intros H2. destruct s1; cbv [String.append]; [exact H2|discriminate].
Qed.

(** Generated request ids are never empty. *)
Lemma randomReqId_nonempty draw c : randomReqId draw c <> "".
Proof.
  unfold randomReqId. apply append_nonempty. by apply or_default_nonempty.
Qed.

Section SendCallback.

Context `{MessageMaster} `{Message}.

(** A correlated response for an entry whose stored handler is not a
    function completes the call without calling anything. *)
Lemma response_without_handler d reqId e c :
  e_reqId d = Some reqId ->
  reqId <> "" ->
  _callbacks c !! reqId = Some e ->
  isFunction (cb e) = false ->
  let c' := exec (onMessage (Decoded d)) c in
  _callbacks c' !! reqId = None
  /\ exists evs,
       trace c' = trace c ++ evs /\ Forall (fun ev => ~ is_invoke ev) evs.
Proof.
  intros Hd Hne He Hf c'. subst c'.
  unfold exec, onMessage, _execCallback. simpl decode. rewrite Hd.
  assert (truthy_str (Some reqId) = true) as ->.
  { simpl. apply negb_true_iff. by apply String.eqb_neq. }
  unfold_monad. rewrite bool_decide_eq_true_2 by (rewrite He; by eexists).
  simpl. rewrite He, Hf. simpl.
  destruct (truthy (e_action d)); simpl.
  2: { rewrite lookup_delete_eq. split; [done|]. exists [].
       by rewrite app_nil_r. }
  destruct (strict_eq (e_action d) ACTION_CONNECTED); simpl.
  - destruct (truthy_str (e_clientId d)),
      (truthy_str (e_connectionId d) || truthy_str (e_socketId d)); simpl;
      rewrite lookup_delete_eq; (split; [done|]); eexists; (split; [done|]);
      repeat constructor; auto.
  - rewrite lookup_delete_eq. split; [done|]. eexists. split; [done|].
    repeat constructor; auto.
Qed.

(** C9: [sendCallback] with a function callback and an object message
    registers the message object itself as the handler of the generated
    request id and stamps that id on the message; the supplied callback
    is stored nowhere.  When the correlated response arrives the entry is
    removed and no user function is called. *)
Theorem sendCallback_stores_message draw r cb0 t c :
  isFunction cb0 = true ->
  _callbacks c !! randomReqId draw c = None ->
  let reqId := randomReqId draw c in
  let c' := exec (sendCallback draw (VObj r) cb0 t) c in
  _callbacks c' !! reqId = Some {| cb := VObj r; timeout := next_handle c |}
  /\ cb <$> _callbacks c' !! reqId <> Some cb0
  /\ (heap c' !! r ≫= (.!! "reqId")) = Some (VStr reqId)
  /\ forall d, e_reqId d = Some reqId ->
       let c'' := exec (onMessage (Decoded d)) c' in
       _callbacks c'' !! reqId = None
       /\ exists evs,
            trace c'' = trace c' ++ evs
            /\ Forall (fun ev => ~ is_invoke ev) evs.
Proof.
  intros Hf Hfree reqId c'.
  assert (_callbacks c' !! reqId
          = Some {| cb := VObj r; timeout := next_handle c |}
          /\ (heap c' !! r ≫= (.!! "reqId")) = Some (VStr reqId))
    as [Hentry Hheap].
  { subst c' reqId.
    unfold exec, sendCallback, set_property, _addCallback, send.
    rewrite Hf. cbn [negb isObject]. unfold_monad. simpl.
    rewrite bool_decide_eq_false_2 by (rewrite Hfree; by intros [? ?]).
    simpl. destruct (socket c); simpl; rewrite !lookup_insert_eq; simpl;
      rewrite ?lookup_insert_eq; done. }
  split; [exact Hentry|]. split.
  { rewrite Hentry. simpl. intros [= <-]. discriminate. }
  split; [exact Hheap|].
  intros d Hd. eapply response_without_handler; eauto.
  apply randomReqId_nonempty.
Qed.

End SendCallback.

(** ** The connection URL and its query parameters *)

Lemma has_char_app a s1 s2 :
  has_char a (s1 +:+ s2) = has_char a s1 || has_char a s2.
Proof.
  induction s1 as [|b s1 IH]; [reflexivity|].
  change (String b s1 +:+ s2) with (String b (s1 +:+ s2)). simpl.
  destruct (Ascii.eqb a b); [reflexivity|exact IH].
Qed.

Lemma before_char_absent a s : has_char a s = false -> before_char a s = s.
Proof.
  induction s as [|b s IH]; simpl; [reflexivity|].
  destruct (Ascii.eqb a b); [discriminate|]. intros Hs. by rewrite IH.
Qed.

Lemma after_char_app a s1 s2 :
  has_char a s1 = false -> after_char a (s1 +:+ String a s2) = Some s2.
Proof.
  induction s1 as [|b s1 IH].
  - intros _. change ("" +:+ String a s2) with (String a s2). simpl.
    by rewrite Ascii.eqb_refl.
  - change (String b s1 +:+ String a s2) with (String b (s1 +:+ String a s2)).
    simpl. destruct (Ascii.eqb a b); [discriminate|exact IH].
Qed.

Lemma split_on_absent a s : has_char a s = false -> split_on a s = [s].
Proof.
  induction s as [|b s IH]; simpl; [reflexivity|].
  destruct (Ascii.eqb a b); [discriminate|]. intros Hs. by rewrite IH.
Qed.

Lemma split_on_app a s1 s2 :
  has_char a s1 = false ->
  split_on a (s1 +:+ String a s2) = s1 :: split_on a s2.
Proof.
  induction s1 as [|b s1 IH].
  - intros _. change ("" +:+ String a s2) with (String a s2). simpl.
    by rewrite Ascii.eqb_refl.
  - change (String b s1 +:+ String a s2) with (String b (s1 +:+ String a s2)).
    simpl. destruct (Ascii.eqb a b); [discriminate|].
    intros Hs. by rewrite IH.
Qed.

(** Splitting undoes joining when no piece holds the separator. *)
Lemma split_on_join a pieces :
  pieces <> [] ->
  Forall (fun s => has_char a s = false) pieces ->
  split_on a (join a pieces) = pieces.
Proof.
  induction pieces as [|s pieces IH]; [done|].
  intros _ Hall. apply Forall_cons in Hall as [Hs Hall].
  destruct pieces as [|s' pieces].
  - simpl. by apply split_on_absent.
  - change (join a (s :: s' :: pieces))
      with (s +:+ String a (join a (s' :: pieces))).
    rewrite split_on_app by exact Hs. by rewrite IH.
Qed.

Lemma has_char_join a sep pieces :
  Ascii.eqb a sep = false ->
  Forall (fun s => has_char a s = false) pieces ->
  has_char a (join sep pieces) = false.
Proof.
  intros Hsep. induction pieces as [|s pieces IH]; [reflexivity|].
  intros Hall. apply Forall_cons in Hall as [Hs Hall].
  destruct pieces as [|s' pieces]; [exact Hs|].
  change (join sep (s :: s' :: pieces))
    with (s +:+ String sep (join sep (s' :: pieces))).
  rewrite has_char_app, Hs. simpl. rewrite Hsep. by apply IH.
Qed.

Lemma string_app_assoc (a b c : string) : a +:+ b +:+ c = (a +:+ b) +:+ c.
Proof.
  induction a as [|x a IH]; [reflexivity|].
  change (String x a +:+ b +:+ c) with (String x (a +:+ b +:+ c)).
  by rewrite IH.
Qed.

Lemma string_app_nil_r (a : string) : a +:+ "" = a.
Proof.
  induction a as [|x a IH]; [reflexivity|].
  change (String x a +:+ "") with (String x (a +:+ "")). by rewrite IH.
Qed.

(** The URL of the grammar is the scheme and host, then the query: the
    parameters joined by ['&']. *)
Lemma connection_url_join wss h s t cid :
  connection_url wss h s t cid
  = ((if wss then "wss" else "ws") +:+ "://" +:+ h)
      +:+ String "?" (join "&" (url_pieces s t cid)).
Proof.
  unfold connection_url. rewrite <- !string_app_assoc. do 3 f_equal.
  destruct s, t, cid; cbn [optional_param]; rewrite ?string_app_nil_r;
    reflexivity.
Qed.

(** [_buildUrl] produces the URL of the grammar, with the parameters that
    are set. *)
Lemma buildUrl_grammar c :
  base_url c ->
  _buildUrl c
  = connection_url (secure c) (host c) (set_value (secret c))
      (set_value (token c)) (set_clientId_value c).
Proof.
  unfold base_url, _buildUrl, connection_url, set_value, set_clientId_value.
  intros ->.
  destruct (truthy_str (secret c)) eqn:Es, (truthy_str (token c)) eqn:Et,
    (String.eqb (clientId c) ""); cbn [negb optional_param];
    try (destruct (secret c) as [S|]; [|discriminate]);
    try (destruct (token c) as [T|]; [|discriminate]);
    cbn [String_of]; rewrite <- ?string_app_assoc, ?string_app_nil_r;
    destruct (secure c); reflexivity.
Qed.

Lemma url_pieces_safe a s t cid :
  has_char a "connect=1" = false ->
  (forall v, s = Some v -> has_char a ("secret=" +:+ v) = false) ->
  (forall v, t = Some v -> has_char a ("access_token=" +:+ v) = false) ->
  (forall v, cid = Some v -> has_char a ("clientId=" +:+ v) = false) ->
  Forall (fun p => has_char a p = false) (url_pieces s t cid).
Proof.
  intros H0 Hs Ht Hc. unfold url_pieces, present.
  destruct s, t, cid; repeat constructor;
    first [exact H0 | exact (Hs _ eq_refl) | exact (Ht _ eq_refl)
          | exact (Hc _ eq_refl)].
Qed.

(** Reading back the query of a URL of the grammar gives its parameters,
    provided the host and the values do not hold the delimiters. *)
Lemma query_params_connection_url wss h s t cid :
  has_char "?" h = false ->
  has_char "#" h = false ->
  url_safe s -> url_safe t -> url_safe cid ->
  query_params (connection_url wss h s t cid)
  = key_value <$> url_pieces s t cid.
Proof.
  intros Hq Hf Hs Ht Hc. rewrite connection_url_join. unfold query_params.
  set (pre := (if wss then "wss" else "ws") +:+ "://" +:+ h).
  assert (has_char "?" pre = false /\ has_char "#" pre = false) as [Hpq Hpf].
  { unfold pre. rewrite !has_char_app, Hq, Hf. by destruct wss. }
  assert (Forall (fun p => has_char "#" p = false) (url_pieces s t cid)) as Hfrag.
  { apply url_pieces_safe; [reflexivity|..]; intros v ->; simpl in *; tauto. }
  assert (Forall (fun p => has_char "&" p = false) (url_pieces s t cid)) as Hamp.
  { apply url_pieces_safe; [reflexivity|..]; intros v ->; simpl in *; tauto. }
  rewrite before_char_absent.
  2: { rewrite has_char_app, Hpf. cbn [orb].
       exact (has_char_join "#" "&" _ eq_refl Hfrag). }
  rewrite after_char_app by exact Hpq.
  rewrite split_on_join; [reflexivity|done|exact Hamp].
Qed.

Lemma url_safe_set_value v : url_safe v -> url_safe (set_value v).
Proof. unfold set_value. by destruct (truthy_str v). Qed.

(** C8, as the code has it: the values are appended to the URL as they
    are, so reading the query parameters of the built URL gives back
    exactly the secret, token and clientId that are set provided none of
    them holds ['&'] or ['#'] (and the host holds neither ['?'] nor ['#']);
    a parameter that is not set is absent from the query. *)
Theorem url_round_trip c :
  base_url c ->
  has_char "?" (host c) = false ->
  has_char "#" (host c) = false ->
  url_safe (secret c) ->
  url_safe (token c) ->
  url_safe (Some (clientId c)) ->
  query_param "secret" (_buildUrl c) = set_value (secret c)
  /\ query_param "access_token" (_buildUrl c) = set_value (token c)
  /\ query_param "clientId" (_buildUrl c) = set_clientId_value c
  /\ query_param "connect" (_buildUrl c) = Some "1".
Proof.
  intros Hb Hq Hf Hs Ht Hc. rewrite (buildUrl_grammar c Hb).
  unfold query_param. rewrite query_params_connection_url; auto.
  - destruct (set_value (secret c)), (set_value (token c)),
      (set_clientId_value c); repeat split; reflexivity.
  - by apply url_safe_set_value.
  - by apply url_safe_set_value.
  - unfold set_clientId_value. by destruct (String.eqb (clientId c) "").
Qed.

(** C8 as stated fails: a secret holding ['&'] is not recovered, and a
    token that was never set appears in the query. *)
Lemma url_round_trip_fails_on_separator :
  let c := constructed (without_connect
                          (with_secret "a&access_token=b" no_options)) in
  secret c = Some "a&access_token=b"
  /\ token c = None
  /\ _buildUrl c = "ws://localhost:8081?connect=1&secret=a&access_token=b"
  /\ query_param "secret" (_buildUrl c) = Some "a"
  /\ query_param "access_token" (_buildUrl c) = Some "b".
Proof. vm_compute. auto. Qed.

(** A secret and a token made of letters and digits are read back as set. *)
Lemma url_round_trip_witness :
  let c := constructed (with_secret "s3cr3t" scenario_config) in
  secret c = Some "s3cr3t"
  /\ token c = Some "abc"
  /\ query_param "secret" (_buildUrl c) = Some "s3cr3t"
  /\ query_param "access_token" (_buildUrl c) = Some "abc"
  /\ query_param "clientId" (_buildUrl c) = None.
Proof.
  intros c.
  destruct (url_round_trip c) as (Hs & Ht & Hc & _);
    [reflexivity|reflexivity|reflexivity|split; reflexivity|split; reflexivity
    |split; reflexivity|].
  split; [reflexivity|]. split; [reflexivity|].
  split; [exact Hs|]. split; [exact Ht|exact Hc].
Defined.

(** Nothing after the first lines of the constructor changes the pieces
    of the base URL. *)
Lemma preserves_bind {A B} F (m : M A) (k : A -> M B) :
  preserves F m -> (forall a, preserves F (k a)) -> preserves F (bind m k).
Proof.
  intros Hm Hk c HF. specialize (Hm c HF). unfold exec, bind in *.
  destruct (m c) as [c1 [a|e]]; simpl in *; [|exact Hm].
  by apply (Hk a c1).
Qed.

Lemma preserves_modify F f :
  (forall c, F c -> F (f c)) -> preserves F (modify f).
Proof. intros Hf c HF. by apply Hf. Qed.

Lemma preserves_ret {A} F (a : A) : preserves F (ret a).
Proof. intros c HF. exact HF. Qed.

Lemma preserves_get F : preserves F get.
Proof. intros c HF. exact HF. Qed.

Lemma preserves_when F b m : preserves F m -> preserves F (when b m).
Proof. intros Hm. destruct b; [exact Hm|apply preserves_ret]. Qed.

Lemma connect_same_address c0 : preserves (same_address c0) connect.
Proof.
  intros c HF. unfold exec, connect, fail, clearSocketListeners.
  unfold_monad. simpl.
  destruct (bool_decide (state c = connected)); simpl.
  - destruct (socket c) eqn:E; simpl; [|exact HF].
    destruct (bool_decide _); simpl; [exact HF|].
    destruct (hasAuth c); repeat (progress (simpl; rewrite ?E)); exact HF.
  - destruct (hasAuth c); simpl; [|exact HF].
    destruct (socket c) eqn:E; repeat (progress (simpl; rewrite ?E));
      exact HF.
Qed.

Lemma fail_same_address c0 err : preserves (same_address c0) (fail err).
Proof. intros c HF. exact HF. Qed.

Lemma authDone_same_address c0 err d :
  preserves (same_address c0) (authDone err d).
Proof.
  unfold authDone. destruct (arg_truthy err); [apply fail_same_address|].
  apply preserves_bind.
  - destruct d as [s|tok|]; [by apply preserves_modify| |apply preserves_ret].
    apply preserves_when. by apply preserves_modify.
  - intros _. apply preserves_bind; [apply preserves_get|]. intros c.
    destruct (negb (truthy_str (token c)));
      [apply fail_same_address|apply connect_same_address].
Qed.

(** Every constructed connection has the base URL of the grammar. *)
Lemma constructor_base_url cfg reply c :
  constructor cfg reply = Normal c -> base_url c.
Proof.
  unfold constructor.
  destruct (negb (truthy_str (c_secret cfg)) && negb (truthy_str (c_token cfg))
            && negb (truthy (c_authCallback cfg))); [discriminate|].
  cbv zeta.
  match goal with
  | |- context [?body (Build_Connection ?a1 ?a2 ?a3 ?a4 ?a5 ?a6 ?a7 ?a8 ?a9
                         ?a10 ?a11 ?a12 ?a13 ?a14 ?a15 ?a16 ?a17 ?a18)] =>
      set (this := Build_Connection a1 a2 a3 a4 a5 a6 a7 a8 a9 a10 a11 a12
                     a13 a14 a15 a16 a17 a18);
      assert (preserves (same_address this) body) as Hbody
  end.
  { apply preserves_bind.
    - apply preserves_when. apply preserves_bind; [by apply preserves_modify|].
      intros _. apply preserves_bind; [by apply preserves_modify|]. intros _.
      destruct reply as [[err d]|];
        [apply authDone_same_address|apply preserves_ret].
    - intros _.
      do 5 (apply preserves_bind; [by apply preserves_modify|intros _]).
      apply preserves_bind; [apply preserves_get|]. intros c1.
      apply preserves_when, connect_same_address. }
  specialize (Hbody this (conj eq_refl (conj eq_refl eq_refl))).
  unfold exec in Hbody.
  match goal with |- context [?body this] => destruct (body this) as [c1 [[]|e]] end;
    [|discriminate].
  intros [= ->]. simpl in Hbody. destruct Hbody as (Hu & Hh & Hs).
  unfold base_url.
  rewrite Hu, Hh, Hs. subst this. simpl.
  destruct (bool_decide _); reflexivity.
Qed.

(** A request sent on an open connection with every random draw at 0. *)
Lemma sendCallback_stores_message_witness :
  let c := constructed (with_token "abc" no_options) in
  let reqId := "AAAAAAAAAAAAAAAAAAAAAAAA----" in
  let c' := exec (@sendCallback sample_codec (fun _ => 0%nat) (VObj 5)
                    (VFun 7) None) c in
  let c'' := exec (@onMessage sample_codec sample_actions
                     (Decoded (response reqId))) c' in
  _callbacks c' !! reqId = Some {| cb := VObj 5; timeout := 2 |}
  /\ _callbacks c'' !! reqId = None
  /\ exists evs,
       trace c'' = trace c' ++ evs /\ Forall (fun ev => ~ is_invoke ev) evs.
Proof.
  intros c reqId c' c''.
  destruct (@sendCallback_stores_message sample_codec sample_actions
              (fun _ => 0%nat) 5%nat (VFun 7) None c eq_refl eq_refl)
    as (He & _ & _ & Hresp).
  split; [exact He|]. exact (Hresp (response reqId) eq_refl).
Defined.

(** * Further properties *)

(** ** Invariants of the reactive system *)

Lemma preserves_throw {A} F (e : jserror) : preserves F (@throw A e).
Proof. intros c HF. exact HF. Qed.

Lemma preserves_readyState F : preserves F readyState.
Proof. intros c HF. unfold exec, readyState. by destruct (socket c). Qed.

Lemma preserves_on_socket F call :
  (forall c e, F c -> F (set_trace (trace c ++ [e]) c)) ->
  preserves F (on_socket call).
Proof.
  intros HF c Hc. unfold exec, on_socket. destruct (socket c); simpl; auto.
Qed.

Lemma preserves_setTimeout F t d :
  (forall c, F c ->
     F (set_next_handle (S (next_handle c))
          (set_timers (<[next_handle c := (t, d)]> (timers c)) c))) ->
  preserves F (setTimeout t d).
Proof. intros HF c Hc. by apply HF. Qed.

(** Structural proof of [preserves]: [leaf] settles the field updates. *)
Ltac preserves_step leaf :=
  first
    [ apply preserves_ret
    | apply preserves_get
    | apply preserves_throw
    | apply preserves_readyState
    | apply preserves_bind; [|intros ?]
    | apply preserves_when
    | apply preserves_modify; leaf
    | apply preserves_on_socket; leaf
    | apply preserves_setTimeout; leaf
    | match goal with
      | |- preserves _ (match ?x with _ => _ end) => destruct x
      end ].

Ltac preserves_auto leaf :=
  unfold connect, close, fail, clearSocketListeners, eio, emit, perform,
    clearTimeout, onOpen, onError, onClose, onConnectError, send,
    sendCallback, set_property, authDone, onMessage, fire, run_task,
    _reconnect, _setupReconnect, _addCallback, _execCallback;
  repeat preserves_step leaf.

Ltac unchanged := intros; assumption.

(** Closed facts about the sample runs are settled by evaluation. *)
Ltac evaluate :=
  vm_compute;
  first [ reflexivity
        | discriminate
        | let H := fresh in intros H; apply H; reflexivity ].

Section Invariants.

Context `{MessageMaster} `{Message}.

Lemma run_preserves (F : Connection -> Prop) :
  (forall e, preserves F (dispatch e)) ->
  forall events c, F c -> F (run events c).
Proof.
  intros Hd events. induction events as [|e events IH]; intros c HF; [done|].
  simpl. apply IH. by apply Hd.
Qed.

(** *** The address never changes *)

Lemma dispatch_same_address c0 e : preserves (same_address c0) (dispatch e).
Proof. destruct e; simpl; preserves_auto unchanged. Qed.

Lemma dispatch_same_options c0 e : preserves (same_options c0) (dispatch e).
Proof. destruct e; simpl; preserves_auto unchanged. Qed.

(** *** One reconnection timer *)

Lemma single_timer_delete h c :
  single_timer c -> single_timer (set_timers (delete h (timers c)) c).
Proof.
  intros HF h' d. simpl. intros Hl. apply (HF h' d).
  apply lookup_delete_Some in Hl. tauto.
Qed.

Lemma single_timer_callback err d c :
  single_timer c ->
  single_timer
    (set_next_handle (S (next_handle c))
       (set_timers (<[next_handle c := (TExecCallback err, d)]> (timers c)) c)).
Proof.
  intros HF h' d'. simpl. intros Hl. apply (HF h' d').
  apply lookup_insert_Some in Hl as [[_ [=]]|[_ Hl]]. exact Hl.
Qed.

Lemma single_timer_disarmed c : single_timer c -> single_timer (disarmed c).
Proof.
  unfold disarmed. intros HF. destruct (reconnectTimeout c) as [h0|] eqn:E;
    [|exact HF].
  intros h d. simpl. intros Hl. apply lookup_delete_Some in Hl as [Hne Hl].
  apply HF in Hl. congruence.
Qed.

Lemma disarmed_handle c : reconnectTimeout (disarmed c) = None.
Proof. unfold disarmed. by destruct (reconnectTimeout c) eqn:E. Qed.

Lemma single_timer_armed c : single_timer c -> single_timer (armed c).
Proof.
  intros HF h d. unfold armed. simpl. intros Hl.
  apply lookup_insert_Some in Hl as [[-> _]|[_ Hl]]; [reflexivity|].
  apply (single_timer_disarmed c HF) in Hl. by rewrite disarmed_handle in Hl.
Qed.

Lemma _setupReconnect_single_timer : preserves single_timer _setupReconnect.
Proof.
  intros c HF. unfold exec. destruct (decide (exhausted c)) as [Hx|Hx].
  - rewrite (_setupReconnect_exhausted c Hx). by apply single_timer_disarmed.
  - rewrite (_setupReconnect_below c Hx). by apply single_timer_armed.
Qed.

Ltac single_timer_leaf :=
  intros; cbv beta;
  first [ assumption
        | apply single_timer_delete; assumption
        | apply single_timer_callback; assumption ].

Lemma dispatch_single_timer e : preserves single_timer (dispatch e).
Proof.
  destruct e; simpl;
    unfold onClose, onConnectError;
    repeat first [ apply _setupReconnect_single_timer
                 | preserves_step single_timer_leaf
                 | progress
                     unfold connect, close, fail, clearSocketListeners, eio,
                       emit, perform, clearTimeout, onOpen, onError, send,
                       sendCallback, set_property, authDone, onMessage, fire,
                       run_task, _reconnect, _addCallback, _execCallback ].
Qed.

(** *** The retry counter *)





End Invariants.

(** ** The constructed connection *)

Lemma bind_normal_inv {A B} (m : M A) (k : A -> M B) c c' b :
  bind m k c = (c', Normal b) ->
  exists a c1, m c = (c1, Normal a) /\ k a c1 = (c', Normal b).
Proof.
  unfold bind. destruct (m c) as [c1 [a|e]]; [eauto|discriminate].
Qed.

Lemma connect_no_timers :
  preserves (fun c => timers c = ∅ /\ heap c = ∅) connect.
Proof. preserves_auto unchanged. Qed.

Lemma authDone_no_timers err d :
  preserves (fun c => timers c = ∅ /\ heap c = ∅) (authDone err d).
Proof. preserves_auto unchanged. Qed.

Lemma connect_fresh : preserves fresh connect.
Proof. preserves_auto unchanged. Qed.

(** A connection comes out of the constructor with no timer, no pending
    call and a retry counter of 0, whatever the auth callback did. *)
Lemma constructor_fresh cfg reply c :
  constructor cfg reply = Normal c -> fresh c.
Proof.
  unfold constructor.
  destruct (negb (truthy_str (c_secret cfg)) && negb (truthy_str (c_token cfg))
            && negb (truthy (c_authCallback cfg))); [discriminate|].
  cbv zeta.
  match goal with
  | |- context [?body (Build_Connection ?a1 ?a2 ?a3 ?a4 ?a5 ?a6 ?a7 ?a8 ?a9
                         ?a10 ?a11 ?a12 ?a13 ?a14 ?a15 ?a16 ?a17 ?a18)] =>
      set (this := Build_Connection a1 a2 a3 a4 a5 a6 a7 a8 a9 a10 a11 a12
                     a13 a14 a15 a16 a17 a18);
      destruct (body this) as [c' [[]|e]] eqn:Hbody; [|discriminate]
  end.
  intros [= ->].
  apply bind_normal_inv in Hbody as ([] & c1 & Hfirst & Hrest).
  assert (timers c1 = ∅ /\ heap c1 = ∅) as [Ht Hh].
  { change c1 with (fst (c1, @Normal unit tt)). rewrite <- Hfirst.
    match goal with
    | |- context [fst (?m this)] =>
        assert (preserves (fun c => timers c = ∅ /\ heap c = ∅) m) as Hp
    end.
    { apply preserves_when.
      apply preserves_bind; [by apply preserves_modify|intros _].
      apply preserves_bind; [by apply preserves_modify|intros _].
      destruct reply as [[err d]|];
        [apply authDone_no_timers|apply preserves_ret]. }
    by apply (Hp this). }
  unfold bind at 1 2 3 4 5 6, modify, get in Hrest. simpl in Hrest.
  match type of Hrest with
  | when _ connect ?c5 = _ =>
      assert (fresh c5) as H5 by (repeat split; assumption);
      change c with (fst (c, @Normal unit tt)); rewrite <- Hrest;
      apply (preserves_when fresh _ connect connect_fresh c5 H5)
  end.
Qed.


Section Reachable.

Context `{MessageMaster} `{Message}.

(** X1: in every state a constructed connection can reach, whatever
    events arrive and in whatever order, at most one reconnection timer
    is pending and [reconnectTimeout] holds its handle. *)
Theorem one_reconnect_timer cfg reply events c0 :
  constructor cfg reply = Normal c0 ->
  let c := run events c0 in
  single_timer c
  /\ forall h h' d d',
       timers c !! h = Some (TReconnect, d) ->
       timers c !! h' = Some (TReconnect, d') -> h = h'.
Proof.
  intros Hc c.
  assert (single_timer c) as Hs.
  { apply run_preserves; [apply dispatch_single_timer|].
    destruct (constructor_fresh cfg reply c0 Hc) as (Ht & _).
    intros h d. rewrite Ht, lookup_empty. discriminate. }
  split; [exact Hs|]. intros h h' d d' H1 H2.
  apply Hs in H1. apply Hs in H2. congruence.
Qed.


(** X3: no event changes the scheme, the host or the base URL chosen at
    construction, so in every reachable state [_buildUrl] yields the URL
    of the grammar for that scheme and host, with the credentials and the
    client id of the moment. *)
Theorem address_is_fixed cfg reply events c0 :
  constructor cfg reply = Normal c0 ->
  let c := run events c0 in
  url c = url c0 /\ host c = host c0 /\ secure c = secure c0
  /\ secret c = secret c0
  /\ _buildUrl c
     = connection_url (secure c0) (host c0) (set_value (secret c0))
         (set_value (token c)) (set_clientId_value c).
Proof.
  intros Hc c.
  assert (same_address c0 c) as (Hu & Hh & Hs).
  { apply run_preserves; [apply dispatch_same_address|]. by repeat split. }
  assert (same_options c0 c) as [_ Hsec].
  { apply run_preserves; [apply dispatch_same_options|]. by split. }
  repeat split; auto.
  rewrite buildUrl_grammar, Hh, Hs, Hsec; [reflexivity|].
  pose proof (constructor_base_url cfg reply c0 Hc) as Hb.
  unfold base_url in *. by rewrite Hu, Hh, Hs.
Qed.

End Reachable.

(** The sample session on a connection with default options. *)
Lemma one_reconnect_timer_witness :
  let c0 := constructed scenario_config in
  let c := @run sample_codec sample_actions sample_session c0 in
  constructor scenario_config None = Normal c0
  /\ state c = closed
  /\ single_timer c.
Proof.
  intros c0 c.
  assert (constructor scenario_config None = Normal c0) as Hc by evaluate.
  destruct (@one_reconnect_timer sample_codec sample_actions scenario_config
              None sample_session c0 Hc) as [Hs _].
  split; [exact Hc|]. split; [evaluate|exact Hs].
Defined.


Lemma address_is_fixed_witness :
  let c := @run sample_codec sample_actions sample_session
             (constructed scenario_config) in
  clientId c = "c1"
  /\ _buildUrl c
     = "ws://localhost:8081?connect=1&access_token=abc&clientId=c1".
Proof.
  intros c.
  assert (constructor scenario_config None
          = Normal (constructed scenario_config)) as Hc by evaluate.
  destruct (@address_is_fixed sample_codec sample_actions scenario_config
              None sample_session (constructed scenario_config) Hc)
    as (_ & _ & _ & _ & Hb).
  split; [evaluate|]. etrans; [exact Hb|evaluate].
Defined.

(** ** Transport session: connection attempts *)

Lemma connect_attempts c :
  state c <> connected -> hasAuth c = true ->
  connect c = (attempting c, Normal tt).
Proof.
  intros Hs Ha. unfold connect, clearSocketListeners, attempting.
  unfold_monad. simpl.
  rewrite bool_decide_eq_false_2 by done. rewrite Ha. simpl.
  destruct (socket c) eqn:E; repeat (progress (simpl; rewrite ?E));
    rewrite <- ?app_assoc; reflexivity.
Qed.

(** ** Transport session: listeners *)

Lemma listeners_snoc tr e : listeners (tr ++ [e]) = listen (listeners tr) e.
Proof. unfold listeners. by rewrite foldl_app. Qed.

Lemma listeners_app tr es :
  listeners (tr ++ es) = foldl listen (listeners tr) es.
Proof. unfold listeners. by rewrite foldl_app. Qed.

(** Appending a call keeps the listeners on the current transport, as
    long as a listener is only added to that transport. *)
Lemma attached_append c e :
  attached_to_current c ->
  match e with
  | SocketOn s ev _ | SocketOnce s ev _ =>
      socket c = Some s /\ is_kind ev = true
  | _ => True
  end ->
  attached_to_current (set_trace (trace c ++ [e]) c).
Proof.
  intros HI He s ev. simpl. rewrite listeners_snoc.
  destruct e; simpl; intros Hin; try (by apply HI).
  - apply elem_of_difference in Hin as [Hin _]. by apply HI.
  - apply elem_of_union in Hin as [Hin|Hin]; [|by apply HI].
    apply elem_of_singleton in Hin as [= -> ->]. exact He.
  - apply elem_of_union in Hin as [Hin|Hin]; [|by apply HI].
    apply elem_of_singleton in Hin as [= -> ->]. exact He.
Qed.

Lemma attached_on_socket call :
  (forall s, match call s with
             | SocketOn s' ev _ | SocketOnce s' ev _ =>
                 s' = s /\ is_kind ev = true
             | _ => True
             end) ->
  preserves attached_to_current (on_socket call).
Proof.
  intros Hcall c HI. unfold exec, on_socket.
  destruct (socket c) as [s|] eqn:E; [|exact HI].
  simpl. apply attached_append; [exact HI|].
  specialize (Hcall s). destruct (call s); auto; destruct Hcall as [-> ?]; auto.
Qed.

Ltac attached_leaf :=
  intros; cbv beta;
  first [ assumption
        | apply attached_append; [assumption|exact I] ].

(** Retiring the current transport leaves no listener anywhere. *)
Lemma retire_clears c :
  attached_to_current c ->
  foldl listen (listeners (trace c)) (retire (socket c)) = ∅.
Proof.
  intros HI. apply set_eq. intros [s ev]. split; [|set_solver].
  destruct (socket c) as [s0|] eqn:E; simpl.
  - intros Hin. repeat (apply elem_of_difference in Hin as [Hin ?]).
    destruct (HI s ev Hin) as [Hsock Hk].
    assert (s = s0) as -> by congruence.
    unfold is_kind in Hk. simpl in Hk.
    repeat match goal with
           | H : context [String.eqb ev ?k] |- _ =>
               destruct (String.eqb_spec ev k); [subst; set_solver|]
           end.
    discriminate.
  - intros Hin. destruct (HI s ev Hin) as [Hsock _]. congruence.
Qed.

Lemma attached_attempting c :
  attached_to_current c -> attached_to_current (attempting c).
Proof.
  intros HI s ev. unfold attempting. simpl.
  rewrite listeners_app, foldl_app, (retire_clears c HI). simpl.
  intros Hin.
  repeat match type of Hin with
         | _ ∈ _ ∪ _ => apply elem_of_union in Hin as [Hin|Hin]
         | _ ∈ {[ _ ]} => apply elem_of_singleton in Hin as [= -> ->]
         | _ ∈ _ ∖ _ => apply elem_of_difference in Hin as [Hin _]
         end; try done; set_solver.
Qed.

Lemma connect_attached : preserves attached_to_current connect.
Proof.
  intros c HI. unfold exec.
  destruct (decide (state c = connected)) as [Hs|Hs].
  - unfold connect, fail, clearSocketListeners. unfold_monad. simpl.
    rewrite bool_decide_eq_true_2 by done.
    destruct (socket c) as [s|] eqn:E; simpl; [|exact HI].
    destruct (bool_decide _); simpl; [exact HI|].
    destruct (hasAuth c) eqn:Ha; simpl.
    + pose proof (attached_attempting c HI) as Hatt.
      unfold attempting in Hatt. rewrite E in Hatt.
      repeat (progress (simpl; rewrite ?E)). rewrite <- ?app_assoc.
      exact Hatt.
    + apply (attached_append (set_state failed c)); [exact HI|exact I].
  - destruct (hasAuth c) eqn:Ha.
    + rewrite (connect_attempts c Hs Ha). by apply attached_attempting.
    + unfold connect, fail. unfold_monad. simpl.
      rewrite bool_decide_eq_false_2 by done. rewrite Ha. simpl.
      apply (attached_append (set_state failed c)); [exact HI|exact I].
Qed.

(** A trace of calls to user functions leaves no listener. *)
Lemma quiet_trace tr : forall ls,
  Forall is_invoke tr -> foldl listen ls tr = ls.
Proof.
  induction tr as [|e tr IH]; intros ls Hall; [reflexivity|].
  apply Forall_cons in Hall as [He Hall]. simpl.
  destruct e; try contradiction. simpl. by apply IH.
Qed.

Lemma quiet_attached c :
  Forall is_invoke (trace c) -> attached_to_current c.
Proof.
  intros Hall s ev Hin. unfold listeners in Hin.
  rewrite quiet_trace in Hin by exact Hall. set_solver.
Qed.

Section Listeners.

Context `{MessageMaster} `{Message}.

Lemma dispatch_attached e : preserves attached_to_current (dispatch e).
Proof.
  destruct e; simpl;
    repeat first [ apply connect_attached
                 | apply attached_on_socket; intros; simpl; auto
                 | preserves_step attached_leaf
                 | progress
                     unfold close, fail, clearSocketListeners, emit, perform,
                       clearTimeout, onOpen, onError, onClose, onConnectError,
                       send, sendCallback, set_property, authDone, onMessage,
                       fire, run_task, _reconnect, _setupReconnect,
                       _addCallback, _execCallback ].
Qed.

(** X4: unless the auth callback completed while the constructor was
    still running, in every reachable state only the current transport
    ([this.socket]) can have listeners, and only for the events "open",
    "close", "error" and "message": a transport is stripped of its
    listeners before another one replaces it. *)
Theorem listeners_only_on_current_transport cfg events c0 :
  constructor cfg None = Normal c0 ->
  attached_to_current (run events c0).
Proof.
  intros Hc. apply run_preserves; [apply dispatch_attached|].
  revert Hc. unfold constructor.
  destruct (negb (truthy_str (c_secret cfg)) && negb (truthy_str (c_token cfg))
            && negb (truthy (c_authCallback cfg))); [discriminate|].
  cbv zeta.
  match goal with
  | |- context [?body (Build_Connection ?a1 ?a2 ?a3 ?a4 ?a5 ?a6 ?a7 ?a8 ?a9
                         ?a10 ?a11 ?a12 ?a13 ?a14 ?a15 ?a16 ?a17 ?a18)] =>
      set (this := Build_Connection a1 a2 a3 a4 a5 a6 a7 a8 a9 a10 a11 a12
                     a13 a14 a15 a16 a17 a18);
      destruct (body this) as [c' [[]|e]] eqn:Hbody; [|discriminate]
  end.
  intros [= ->].
  apply bind_normal_inv in Hbody as ([] & c1 & Hfirst & Hrest).
  assert (Forall is_invoke (trace c1)) as Hq.
  { destruct (isFunction (c_authCallback cfg)); unfold_monad;
      simpl in Hfirst; injection Hfirst as <-; simpl; by repeat constructor. }
  unfold bind at 1 2 3 4 5 6, modify, get in Hrest. simpl in Hrest.
  match type of Hrest with
  | when ?b connect ?c5 = _ =>
      assert (attached_to_current c5) as H5
        by (apply quiet_attached; simpl; exact Hq);
      change c0 with (fst (c0, @Normal unit tt)); rewrite <- Hrest;
      apply (preserves_when attached_to_current b connect connect_attached
               c5 H5)
  end.
Qed.

End Listeners.

Lemma listeners_only_on_current_transport_witness :
  let c0 := constructed scenario_config in
  let c := @run sample_codec sample_actions
             [TransportOpen; TransportClose; TimerExpires 2; TransportOpen]
             c0 in
  constructor scenario_config None = Normal c0
  /\ socket c = Some 3%nat
  /\ attached_to_current c.
Proof.
  intros c0 c.
  assert (constructor scenario_config None = Normal c0) as Hc by evaluate.
  split; [exact Hc|]. split; [evaluate|].
  exact (@listeners_only_on_current_transport sample_codec sample_actions
           scenario_config _ c0 Hc).
Defined.

(** X5: [close()] does not cancel a pending reconnection timer.  When
    that timer expires after [close()], the connection counts a retry and
    starts a new attempt: it leaves [closing] for [connecting] with a new
    transport. *)
Theorem close_does_not_stop_retries c s h d :
  socket c = Some s ->
  timers c !! h = Some (TReconnect, d) ->
  autoReconnect (options c) = true ->
  ~ exhausted c ->
  hasAuth c = true ->
  let c1 := exec close c in
  let c2 := exec (fire h) c1 in
  result close c = Normal tt
  /\ state c1 = closing
  /\ timers c1 !! h = Some (TReconnect, d)
  /\ result (fire h) c1 = Normal tt
  /\ state c2 = connecting
  /\ currentRetries c2 = currentRetries c + 1
  /\ socket c2 = Some (next_handle c)
  /\ opened (trace c2) = opened (trace c) ++ [next_handle c].
Proof.
  intros Hs Ht Ha Hx Hauth.
  set (c1 := set_trace (trace c ++ Emit "closing" [] :: SocketClose s
                          :: [SocketRemoveAllListeners s "open";
                              SocketRemoveAllListeners s "close";
                              SocketRemoveAllListeners s "error";
                              SocketRemoveAllListeners s "message"])
               (set_state closing c)).
  assert (close c = (c1, Normal tt)) as Hclose.
  { unfold close, clearSocketListeners. unfold_monad. simpl. rewrite Hs.
    simpl. rewrite Hs. simpl. rewrite <- !app_assoc. reflexivity. }
  set (c1' := set_currentRetries (currentRetries c + 1)
                (set_timers (delete h (timers c)) c1)).
  assert (fire h c1 = (attempting c1', Normal tt)) as Hfire.
  { unfold fire, run_task. unfold bind at 1, get at 1.
    change (timers c1) with (timers c). rewrite Ht.
    unfold bind at 1, modify at 1.
    rewrite _reconnect_attempts; [|exact Ha|exact Hx|discriminate..].
    apply connect_attempts; [discriminate|exact Hauth]. }
  unfold exec, result. rewrite Hclose. cbn [fst snd]. rewrite Hfire.
  cbn [fst snd].
  split; [reflexivity|]. split; [reflexivity|]. split; [exact Ht|].
  split; [reflexivity|]. split; [reflexivity|]. split; [reflexivity|].
  split; [reflexivity|].
  unfold attempting, c1', c1, opened. simpl. rewrite Hs.
  rewrite !omap_app. simpl. by rewrite app_nil_r.
Qed.

Lemma close_does_not_stop_retries_witness :
  let c := exec (onConnectError transport_failure)
             (constructed scenario_config) in
  let c2 := exec (fire 2) (exec close c) in
  state c = failed
  /\ state (exec close c) = closing
  /\ state c2 = connecting
  /\ socket c2 = Some 3%nat
  /\ currentRetries c2 = 1.
Proof.
  intros c c2.
  assert (socket c = Some 1%nat) as Hs by evaluate.
  assert (timers c !! 2%nat = Some (TReconnect, 1000)) as Ht by evaluate.
  assert (autoReconnect (options c) = true) as Ha by evaluate.
  assert (~ exhausted c) as Hx by evaluate.
  assert (hasAuth c = true) as Hauth by evaluate.
  destruct (close_does_not_stop_retries c 1%nat 2%nat 1000 Hs Ht Ha Hx Hauth)
    as (_ & H1 & _ & _ & H2 & H3 & H4 & _).
  split; [evaluate|]. split; [exact H1|]. split; [exact H2|].
  split; [etrans; [exact H4|evaluate]|etrans; [exact H3|evaluate]].
Defined.

(** X6: [close()] on a connection with a transport, followed by the
    transport's close callback, ends in [closed] from any state: the
    transport is closed once and stripped of its listeners, the closing
    and closed events are emitted in that order, and the reconnection
    policy is not touched -- no timer is armed and none is cancelled. *)
Theorem close_then_transport_close c s :
  socket c = Some s ->
  let c' := exec onClose (exec close c) in
  result close c = Normal tt
  /\ result onClose (exec close c) = Normal tt
  /\ state c' = closed
  /\ trace c'
     = trace c ++ [Emit "closing" []; SocketClose s;
                   SocketRemoveAllListeners s "open";
                   SocketRemoveAllListeners s "close";
                   SocketRemoveAllListeners s "error";
                   SocketRemoveAllListeners s "message"; Emit "closed" []]
  /\ timers c' = timers c
  /\ reconnectTimeout c' = reconnectTimeout c
  /\ currentRetries c' = currentRetries c
  /\ socket c' = Some s.
Proof.
  intros Hs c'. subst c'. unfold exec, result, close, onClose,
    clearSocketListeners. unfold_monad. simpl. rewrite Hs. simpl.
  rewrite Hs. simpl. rewrite <- !app_assoc. repeat split; auto.
Qed.

Lemma close_then_transport_close_witness :
  let c := constructed scenario_config in
  let c' := exec onClose (exec close c) in
  state c = connecting /\ state c' = closed /\ timers c' = ∅.
Proof.
  intros c c'.
  assert (socket c = Some 1%nat) as Hs by evaluate.
  destruct (close_then_transport_close c 1%nat Hs)
    as (_ & _ & Hst & _ & Ht & _).
  split; [evaluate|]. split; [exact Hst|]. etrans; [exact Ht|evaluate].
Defined.

(** X7: a reconnection timer that expires while the connection is
    [connected] or [connecting] never starts an attempt: the timer goes
    away, the state, the transport and the trace stay, and the counter is
    either kept or, when connected below the ceiling, reset to 0. *)
Theorem timer_is_harmless_when_connecting_or_connected c h d :
  timers c !! h = Some (TReconnect, d) ->
  state c = connected \/ state c = connecting ->
  let c' := exec (fire h) c in
  result (fire h) c = Normal tt
  /\ timers c' = delete h (timers c)
  /\ state c' = state c
  /\ socket c' = socket c
  /\ trace c' = trace c
  /\ currentRetries c'
     = (if autoReconnect (options c)
           && negb (retriesAmount (options c) <=? currentRetries c)
           && bool_decide (state c = connected)
        then 0 else currentRetries c).
Proof.
  intros Ht Hs c'. subst c'.
  unfold exec, result, fire, run_task, _reconnect, isConnected.
  unfold_monad. rewrite Ht. simpl.
  destruct (autoReconnect (options c)); simpl; [|auto 10].
  destruct (retriesAmount (options c) <=? currentRetries c); simpl; [auto 10|].
  destruct Hs as [Hs|Hs]; rewrite Hs; simpl; auto 10.
Qed.

Lemma timer_is_harmless_when_connecting_or_connected_witness :
  let c := @run sample_codec sample_actions
             [ConnectError transport_failure; Connect; TransportOpen;
              TransportMessage (Decoded handshake)]
             (constructed scenario_config) in
  let c' := exec (fire 2) c in
  state c = connected
  /\ timers c !! 2%nat = Some (TReconnect, 1000)
  /\ state c' = connected
  /\ timers c' = ∅
  /\ trace c' = trace c.
Proof.
  intros c c'.
  assert (timers c !! 2%nat = Some (TReconnect, 1000)) as Ht by evaluate.
  assert (state c = connected) as Hs by evaluate.
  destruct (timer_is_harmless_when_connecting_or_connected c 2%nat 1000 Ht
              (or_introl Hs))
    as (_ & Htm & Hst & _ & Htr & _).
  split; [exact Hs|]. split; [exact Ht|].
  split; [etrans; [exact Hst|exact Hs]|]. split; [etrans; [exact Htm|evaluate]|exact Htr].
Defined.



(** ** Credentials *)

Lemma opened_snoc tr e :
  match e with Eio _ _ => False | _ => True end ->
  opened (tr ++ [e]) = opened tr.
Proof.
  intros He. unfold opened. rewrite omap_app. simpl.
  destruct e; try contradiction; simpl; by rewrite app_nil_r.
Qed.

Lemma locked_out_append l s0 c e :
  locked_out l s0 c ->
  match e with Eio _ _ => False | _ => True end ->
  locked_out l s0 (set_trace (trace c ++ [e]) c).
Proof.
  intros (Ha & Ho & Hs) He. repeat split; [exact Ha| |exact Hs].
  simpl. by rewrite opened_snoc.
Qed.

Lemma locked_out_on_socket l s0 call :
  (forall s, match call s with Eio _ _ => False | _ => True end) ->
  preserves (locked_out l s0) (on_socket call).
Proof.
  intros Hcall c HF. unfold exec, on_socket.
  destruct (socket c) as [s|] eqn:E; [|exact HF].
  simpl. apply locked_out_append; [exact HF|apply Hcall].
Qed.

Lemma connect_locked_out l s0 : preserves (locked_out l s0) connect.
Proof.
  intros c HF. pose proof HF as (Ha & _). unfold exec, connect, fail.
  unfold_monad. simpl. rewrite Ha. simpl.
  destruct (bool_decide (state c = connected)); simpl.
  - destruct (socket c); simpl; [|exact HF].
    destruct (bool_decide _); simpl; [exact HF|].
    apply (locked_out_append l s0 (set_state failed c)); [exact HF|exact I].
  - apply (locked_out_append l s0 (set_state failed c)); [exact HF|exact I].
Qed.

Ltac locked_out_leaf :=
  intros; cbv beta;
  first [ assumption
        | apply locked_out_append; [assumption|exact I] ].

Section Credentials.

Context `{MessageMaster} `{Message}.

Lemma dispatch_locked_out l s0 e :
  match e with AuthDone _ _ => False | _ => True end ->
  preserves (locked_out l s0) (dispatch e).
Proof.
  destruct e; simpl; intros He; try contradiction;
    repeat first [ apply connect_locked_out
                 | apply locked_out_on_socket; intros; exact I
                 | preserves_step locked_out_leaf
                 | progress
                     unfold close, fail, clearSocketListeners, emit, perform,
                       clearTimeout, onOpen, onError, onClose, onConnectError,
                       send, sendCallback, set_property, onMessage,
                       fire, run_task, _reconnect, _setupReconnect,
                       _addCallback, _execCallback ].
Qed.

(** X9: a connection without a usable token or secret never opens a
    transport.  Whatever events arrive -- [connect()] calls, timers,
    transport callbacks, messages -- short of the auth callback
    delivering a token, the connection stays without credentials, the
    list of transports opened does not grow and [this.socket] does not
    change. *)
Theorem no_transport_without_credentials events : forall c,
  hasAuth c = false ->
  no_auth_reply events ->
  let c' := run events c in
  hasAuth c' = false
  /\ opened (trace c') = opened (trace c)
  /\ socket c' = socket c.
Proof.
  induction events as [|e events IH]; intros c Ha Hev; [by simpl|].
  apply Forall_cons in Hev as [He Hev].
  assert (locked_out (opened (trace c)) (socket c) (exec (dispatch e) c))
    as (Ha1 & Ho1 & Hs1).
  { apply dispatch_locked_out; [exact He|]. by repeat split. }
  destruct (IH _ Ha1 Hev) as (Ha2 & Ho2 & Hs2).
  simpl. repeat split; [exact Ha2|congruence|congruence].
Qed.

End Credentials.

Lemma no_transport_without_credentials_witness :
  let c := constructed (with_authCallback (VFun 9) no_options) in
  let c' := @run sample_codec sample_actions
              [Connect; TransportClose; TimerExpires 1; Connect;
               TransportMessage (Decoded handshake); Connect] c in
  state c = connecting
  /\ hasAuth c = false
  /\ opened (trace c') = []
  /\ socket c' = None.
Proof.
  intros c c'.
  assert (hasAuth c = false) as Ha by evaluate.
  destruct (@no_transport_without_credentials sample_codec sample_actions
              [Connect; TransportClose; TimerExpires 1; Connect;
               TransportMessage (Decoded handshake); Connect] c Ha)
    as (_ & Ho & Hs); [repeat constructor|].
  split; [evaluate|]. split; [exact Ha|].
  split; [etrans; [exact Ho|evaluate]|etrans; [exact Hs|evaluate]].
Defined.

(** X10: when the auth callback fails -- it reports an error, or its
    reply leaves the connection without a usable token -- the connection
    becomes [failed] and emits the failed event with the reason; no
    transport is opened and no timer is armed, so nothing retries.  (A
    bare string reply replaces the token even when it is empty.) *)
Theorem auth_failure_is_final err d c :
  arg_truthy err = true
  \/ truthy_str (reply_token d (token c)) = false ->
  let c' := exec (authDone err d) c in
  result (authDone err d) c = Normal tt
  /\ state c' = failed
  /\ token c' = (if arg_truthy err then token c
                 else reply_token d (token c))
  /\ trace c'
     = trace c ++ [Emit "failed" [if arg_truthy err then err
                                  else AStr "No token received"]]
  /\ timers c' = timers c
  /\ reconnectTimeout c' = reconnectTimeout c
  /\ socket c' = socket c.
Proof.
  intros Hfail c'. subst c'. unfold exec, result, authDone, fail.
  destruct (arg_truthy err) eqn:He.
  - unfold_monad. simpl. rewrite ?He. auto 10.
  - destruct Hfail as [|Ht]; [discriminate|].
    unfold_monad. destruct d as [s|tok|]; simpl in Ht |- *.
    + rewrite Ht. simpl. auto 10.
    + destruct (truthy_str tok) eqn:Etok; simpl; [congruence|].
      rewrite Ht. simpl. auto 10.
    + rewrite Ht. simpl. auto 10.
Qed.

Lemma auth_failure_is_final_witness :
  let c := constructed (with_authCallback (VFun 9) scenario_config) in
  let c' := exec (authDone ANull (TString "")) c in
  token c = Some "abc"
  /\ state c' = failed
  /\ token c' = Some ""
  /\ timers c' = ∅
  /\ socket c' = None.
Proof.
  intros c c'.
  assert (truthy_str (reply_token (TString "") (token c)) = false) as Hf
    by reflexivity.
  destruct (auth_failure_is_final ANull (TString "") c (or_intror Hf))
    as (_ & Hs & Ht & _ & Htm & _ & Hso).
  split; [evaluate|]. split; [exact Hs|]. split; [exact Ht|].
  split; [etrans; [exact Htm|evaluate]|etrans; [exact Hso|evaluate]].
Defined.

(** A reply with a non-empty bare token replaces the token and starts a
    connection attempt. *)
Lemma authDone_with_token err tok c :
  arg_truthy err = false -> tok <> "" -> state c <> connected ->
  authDone err (TString tok) c
  = (attempting (set_token (Some tok) c), Normal tt).
Proof.
  intros He Htok Hs.
  assert (truthy_str (Some tok) = true) as Ht.
  { simpl. apply negb_true_iff. by apply String.eqb_neq. }
  unfold authDone. rewrite He. unfold bind at 1, modify at 1.
  unfold bind at 1, get at 1.
  change (token (set_token (Some tok) c)) with (Some tok). rewrite Ht.
  cbn [negb]. apply connect_attempts; [exact Hs|].
  unfold hasAuth, or_str.
  change (token (set_token (Some tok) c)) with (Some tok). by rewrite Ht.
Qed.

(** X11: when the auth callback calls its completion function with a
    token before it returns, the constructor opens a transport and then
    resets [this.socket] to null.  The connection it returns is
    [connecting] with no transport handle, the transport that was opened
    keeps its one-shot listeners, and when that transport opens, [onOpen]
    finds no handle and attaches nothing. *)
Theorem constructor_loses_transport_of_early_reply cfg err tok :
  isFunction (c_authCallback cfg) = true ->
  arg_truthy err = false ->
  tok <> "" ->
  exists c,
    constructor cfg (Some (err, TString tok)) = Normal c
    /\ state c = connecting
    /\ token c = Some tok
    /\ socket c = None
    /\ trace c
       = Invoke (c_authCallback cfg) [AEmptyObject; ADone]
           :: open_transport 1 (_buildUrl c)
    /\ (1%nat, "open") ∈ listeners (trace c)
    /\ onOpen c = (c, Normal tt).
Proof.
  intros Hf He Htok.
  destruct (c_authCallback cfg) as [| | | | | |f] eqn:Ef; try discriminate.
  unfold constructor. rewrite Ef. cbn [truthy negb isFunction].
  rewrite andb_false_r. cbv zeta.
  unfold when at 1. unfold bind at 1 2 3, modify at 1, perform at 1,
    modify at 1.
  rewrite (authDone_with_token err tok _ He Htok) by (simpl; discriminate).
  unfold_monad. cbn -[listeners].
  eexists. split; [reflexivity|]. cbn -[listeners].
  repeat split; auto; unfold listeners; simpl; set_solver.
Qed.

Lemma constructor_loses_transport_of_early_reply_witness :
  exists c,
    constructor (with_authCallback (VFun 9) no_options)
      (Some (ANull, TString "tok")) = Normal c
    /\ state c = connecting
    /\ socket c = None
    /\ opened (trace c) = [1%nat].
Proof.
  destruct (constructor_loses_transport_of_early_reply
              (with_authCallback (VFun 9) no_options) ANull "tok")
    as (c & Hc & Hs & _ & Hso & Htr & _);
    [reflexivity|reflexivity|discriminate|].
  exists c. split; [exact Hc|]. split; [exact Hs|]. split; [exact Hso|].
  etrans; [apply (f_equal opened Htr)|evaluate].
Defined.

(** Without credentials [connect] fails on the spot. *)
Lemma connect_without_credentials c :
  state c <> connected -> hasAuth c = false ->
  connect c = (failed_with (AStr "No auth parameters") c, Normal tt).
Proof.
  intros Hs Ha. unfold connect, fail, failed_with. unfold_monad. simpl.
  rewrite bool_decide_eq_false_2 by done. by rewrite Ha.
Qed.

(** X12: a configuration whose only credential source is an
    [authCallback] that is not a function passes the constructor's check,
    but the connection it builds has no credentials: unless
    [noAutoConnect] is set, the implicit [connect()] fails at once -- the
    connection is returned [failed], having emitted the failed event with
    "No auth parameters", with no transport and no timer. *)
Theorem constructor_with_useless_authCallback cfg reply :
  truthy_str (c_secret cfg) = false ->
  truthy_str (c_token cfg) = false ->
  truthy (c_authCallback cfg) = true ->
  isFunction (c_authCallback cfg) = false ->
  c_noAutoConnect cfg = false ->
  exists c,
    constructor cfg reply = Normal c
    /\ state c = failed
    /\ hasAuth c = false
    /\ trace c = [Emit "failed" [AStr "No auth parameters"]]
    /\ socket c = None
    /\ timers c = ∅.
Proof.
  intros Hs Ht Ha Hf Hn. unfold constructor.
  rewrite Hs, Ht, Ha, Hf, Hn. cbn [negb andb]. cbv zeta.
  unfold when, bind, modify, get, ret. cbn -[connect].
  rewrite connect_without_credentials.
  - eexists. split; [reflexivity|]. unfold failed_with, hasAuth, or_str.
    cbn. rewrite Hs, Ht. auto 10.
  - cbn. discriminate.
  - unfold hasAuth, or_str. cbn. by rewrite Hs, Ht.
Qed.

Lemma constructor_with_useless_authCallback_witness :
  exists c,
    constructor (with_authCallback (VStr "callback") no_options) None
    = Normal c
    /\ state c = failed
    /\ socket c = None.
Proof.
  destruct (constructor_with_useless_authCallback
              (with_authCallback (VStr "callback") no_options) None)
    as (c & Hc & Hs & _ & _ & Hso & _); try reflexivity.
  exists c. auto.
Defined.

(** ** Address *)

Lemma substring_all s : String.substring 0 (String.length s) s = s.
Proof. induction s as [|a s IH]; simpl; [reflexivity|by rewrite IH]. Qed.

Lemma constructor_address cfg reply c :
  constructor cfg reply = Normal c ->
  let host0 := or_default (c_host cfg) "localhost:8081" in
  let wss := bool_decide (String.index 0 "wss://" host0 = Some 0%nat) in
  secure c = (if wss then true else c_secure cfg)
  /\ host c = (if wss then replace_first "wss://" "" host0 else host0).
Proof.
  unfold constructor.
  destruct (negb (truthy_str (c_secret cfg)) && negb (truthy_str (c_token cfg))
            && negb (truthy (c_authCallback cfg))); [discriminate|].
  cbv zeta.
  match goal with
  | |- context [?body (Build_Connection ?a1 ?a2 ?a3 ?a4 ?a5 ?a6 ?a7 ?a8 ?a9
                         ?a10 ?a11 ?a12 ?a13 ?a14 ?a15 ?a16 ?a17 ?a18)] =>
      set (this := Build_Connection a1 a2 a3 a4 a5 a6 a7 a8 a9 a10 a11 a12
                     a13 a14 a15 a16 a17 a18);
      assert (preserves (same_address this) body) as Hbody
  end.
  { apply preserves_bind.
    - apply preserves_when. apply preserves_bind; [by apply preserves_modify|].
      intros _. apply preserves_bind; [by apply preserves_modify|]. intros _.
      destruct reply as [[err d]|];
        [apply authDone_same_address|apply preserves_ret].
    - intros _.
      do 5 (apply preserves_bind; [by apply preserves_modify|intros _]).
      apply preserves_bind; [apply preserves_get|]. intros c1.
      apply preserves_when, connect_same_address. }
  specialize (Hbody this (conj eq_refl (conj eq_refl eq_refl))).
  unfold exec in Hbody.
  match goal with
  | |- context [?body this] => destruct (body this) as [c1 [[]|e]]
  end; [|discriminate].
  intros [= ->]. simpl in Hbody. destruct Hbody as (_ & Hh & Hs).
  rewrite Hh, Hs. split; reflexivity.
Qed.

(** X13: the address a connection is built with.  A host written
    ["wss://rest"] makes the connection secure whatever [options.secure]
    says and loses the prefix, so that the base URL is
    ["wss://rest?connect=1"]; any other host is kept as it is, with the
    scheme chosen by [options.secure]; a missing or empty host becomes
    ["localhost:8081"]. *)
Theorem constructor_chooses_address cfg reply c :
  constructor cfg reply = Normal c ->
  let host0 := or_default (c_host cfg) "localhost:8081" in
  (forall rest, host0 = "wss://" +:+ rest ->
     secure c = true /\ host c = rest
     /\ url c = "wss://" +:+ rest +:+ "?connect=1")
  /\ (String.index 0 "wss://" host0 <> Some 0%nat ->
      secure c = c_secure cfg /\ host c = host0
      /\ url c = (if c_secure cfg then "wss://" else "ws://")
                   +:+ host0 +:+ "?connect=1")
  /\ (truthy_str (c_host cfg) = false -> host0 = "localhost:8081").
Proof.
  intros Hc host0.
  destruct (constructor_address cfg reply c Hc) as [Hs Hh].
  pose proof (constructor_base_url cfg reply c Hc) as Hb.
  unfold base_url in Hb. fold host0 in Hs, Hh.
  split; [|split].
  - intros rest Hr. rewrite Hr in Hs, Hh.
    assert (String.index 0 "wss://" ("wss://" +:+ rest) = Some 0%nat) as Hi
      by (destruct rest; reflexivity).
    rewrite bool_decide_eq_true_2 in Hs, Hh by exact Hi.
    assert (replace_first "wss://" "" ("wss://" +:+ rest) = rest) as Hrep.
    { unfold replace_first. rewrite Hi.
      change (String.length ("wss://" +:+ rest))
        with (6 + String.length rest)%nat.
      change (0 + String.length "wss://")%nat with 6%nat.
      replace (6 + String.length rest - 6)%nat with (String.length rest)
        by lia.
      change (String.substring 6 (String.length rest) ("wss://" +:+ rest))
        with (String.substring 0 (String.length rest) rest).
      by rewrite substring_all. }
    rewrite Hrep in Hh. rewrite Hb, Hs, Hh. auto.
  - intros Hi. rewrite bool_decide_eq_false_2 in Hs, Hh by exact Hi.
    rewrite Hb, Hs, Hh. auto.
  - intros Hf. unfold host0, or_default. destruct (c_host cfg) as [h|]; [|done].
    simpl in Hf. apply negb_false_iff in Hf. by rewrite Hf.
Qed.

Lemma constructor_chooses_address_witness :
  let c := constructed (with_host "wss://example.org" scenario_config) in
  secure c = true
  /\ host c = "example.org"
  /\ _buildUrl c = "wss://example.org?connect=1&access_token=abc".
Proof.
  intros c.
  assert (constructor (with_host "wss://example.org" scenario_config) None
          = Normal c) as Hc by evaluate.
  destruct (constructor_chooses_address
              (with_host "wss://example.org" scenario_config) None c Hc)
    as (Hw & _ & _).
  destruct (Hw "example.org" eq_refl) as (Hs & Hh & _).
  split; [exact Hs|]. split; [exact Hh|evaluate].
Defined.

(** ** Callback registry: completion *)

(** X14: completing a pending call happens once.  [_execCallback]
    removes the entry, cancels its timer and calls the stored handler
    once with the error and the data when it is a function; after that,
    any further completion for the same request id changes nothing and
    calls nothing. *)
Theorem execCallback_completes_once reqId err data e c :
  _callbacks c !! reqId = Some e ->
  let c1 := exec (_execCallback reqId err data) c in
  result (_execCallback reqId err data) c = Normal tt
  /\ _callbacks c1 = delete reqId (_callbacks c)
  /\ timers c1 = delete (timeout e) (timers c)
  /\ trace c1
     = trace c ++ (if isFunction (cb e) then [Invoke (cb e) [err; data]]
                   else [])
  /\ forall err' data',
       _execCallback reqId err' data' c1 = (c1, Normal tt).
Proof.
  intros He c1. subst c1. unfold exec, result, _execCallback. unfold_monad.
  rewrite He. destruct (isFunction (cb e)); simpl; rewrite lookup_delete_eq;
    rewrite ?app_nil_r; auto 10.
Qed.

Lemma execCallback_completes_once_witness :
  let c := exec (_addCallback "r1" (VFun 7) None) idle in
  let c1 := exec (_execCallback "r1" ANull (AData (response "r1"))) c in
  _callbacks c !! "r1" = Some {| cb := VFun 7; timeout := 1 |}
  /\ trace c1 = [Invoke (VFun 7) [ANull; AData (response "r1")]]
  /\ timers c1 = ∅
  /\ _execCallback "r1" ANull AUndefined c1 = (c1, Normal tt).
Proof.
  intros c c1.
  assert (_callbacks c !! "r1" = Some {| cb := VFun 7; timeout := 1 |})
    as He by evaluate.
  destruct (execCallback_completes_once "r1" ANull (AData (response "r1"))
              {| cb := VFun 7; timeout := 1 |} c He)
    as (_ & _ & Ht & Htr & Hagain).
  split; [exact He|]. split; [etrans; [exact Htr|evaluate]|].
  split; [etrans; [exact Ht|evaluate]|apply Hagain].
Defined.



(** ** Sending *)

Section Sending.

Context `{MessageMaster} `{Message}.

(** X16: [sendCallback] on a connection without a transport throws a
    [TypeError] at [this.socket.send], after the call was registered: the
    request id is stamped on the message, the entry is pending with its
    timer armed, and nothing was sent. *)
Theorem sendCallback_without_transport draw r f t c :
  socket c = None ->
  isFunction f = true ->
  _callbacks c !! randomReqId draw c = None ->
  let reqId := randomReqId draw c in
  let c' := exec (sendCallback draw (VObj r) f t) c in
  result (sendCallback draw (VObj r) f t) c = Throw TypeError
  /\ _callbacks c' !! reqId
     = Some {| cb := VObj r; timeout := next_handle c |}
  /\ timers c' !! next_handle c
     = Some (TExecCallback (Error ("Operation timeout for callback: "
                                   +:+ reqId)),
             or_num t 15000)
  /\ trace c' = trace c.
Proof.
  intros Hs Hf Hfree reqId c'. subst c' reqId.
  unfold exec, result, sendCallback, set_property, _addCallback, send.
  rewrite Hf. cbn [negb isObject]. unfold_monad. simpl.
  rewrite bool_decide_eq_false_2 by (rewrite Hfree; by intros [? ?]).
  simpl. rewrite Hs. simpl. rewrite !lookup_insert_eq.
  repeat split; auto. f_equal. f_equal.
  destruct t as [n|]; simpl; [|reflexivity].
  destruct (n =? 0) eqn:E; simpl; [reflexivity|]. by rewrite E.
Qed.

(** X17: an inbound envelope that is not a handshake never changes the
    state, the identity or the retry counter.  After completing a
    correlated call, if any, it is emitted as a "message" event when it
    has a truthy action, and is dropped without any event when it has
    none. *)
Theorem onMessage_without_handshake p c :
  strict_eq (e_action (decode p)) ACTION_CONNECTED = false
  \/ truthy (e_action (decode p)) = false ->
  let data := decode p in
  let c' := exec (onMessage p) c in
  result (onMessage p) c = Normal tt
  /\ state c' = state c
  /\ clientId c' = clientId c
  /\ connectionId c' = connectionId c
  /\ currentRetries c' = currentRetries c
  /\ exists calls,
       Forall is_invoke calls
       /\ trace c'
          = trace c ++ calls
              ++ (if truthy (e_action data)
                  then [Emit "message" [AData data]] else []).
Proof.
  intros Hother data c'. subst c'.
  assert (exists c1,
    (match e_reqId data with
     | Some reqId =>
         when (truthy_str (Some reqId)
               && bool_decide (is_Some (_callbacks c !! reqId)))
           (_execCallback reqId ANull (AData data))
     | None => ret tt
     end) c = (c1, Normal tt)
    /\ state c1 = state c /\ clientId c1 = clientId c
    /\ connectionId c1 = connectionId c
    /\ currentRetries c1 = currentRetries c
    /\ exists calls, trace c1 = trace c ++ calls /\ Forall is_invoke calls)
    as (c1 & E1 & Hst & Hcl & Hco & Hcr & calls & Htr & Hcalls).
  { assert (exists c1, ret tt c = (c1, Normal tt)
      /\ state c1 = state c /\ clientId c1 = clientId c
      /\ connectionId c1 = connectionId c
      /\ currentRetries c1 = currentRetries c
      /\ exists calls, trace c1 = trace c ++ calls /\ Forall is_invoke calls)
      as Hskip.
    { exists c. repeat split; auto. exists []. by rewrite app_nil_r. }
    destruct (e_reqId data) as [reqId|]; [|exact Hskip].
    destruct (truthy_str (Some reqId)
              && bool_decide (is_Some (_callbacks c !! reqId)));
      [apply _execCallback_frame|exact Hskip]. }
  assert (onMessage p c
          = (if truthy (e_action data)
             then emit "message" [AData data] else ret tt) c1) as Hom.
  { unfold onMessage. fold data. unfold bind at 1, get at 1.
    unfold bind at 1. rewrite E1. fold data in Hother.
    destruct (truthy (e_action data)); [|reflexivity].
    destruct Hother as [->|]; [reflexivity|discriminate]. }
  unfold exec, result. rewrite Hom. clear Hom.
  destruct (truthy (e_action data)); unfold_monad; simpl;
    repeat split; auto; exists calls; (split; [exact Hcalls|]);
    rewrite Htr, <- ?app_assoc, ?app_nil_r; reflexivity.
Qed.

End Sending.

Lemma sendCallback_without_transport_witness :
  let c' := exec (@sendCallback sample_codec (fun _ => 0%nat) (VObj 5)
                    (VFun 7) None) idle in
  socket idle = None
  /\ result (@sendCallback sample_codec (fun _ => 0%nat) (VObj 5) (VFun 7)
               None) idle = Throw TypeError
  /\ _callbacks c' !! "AAAAAAAAAAAAAAAAAAAAAAAA----"
     = Some {| cb := VObj 5; timeout := 1 |}.
Proof.
  intros c'.
  assert (socket idle = None) as Hs by evaluate.
  assert (_callbacks idle !! randomReqId (fun _ => 0%nat) idle = None)
    as Hfree by evaluate.
  destruct (@sendCallback_without_transport sample_codec (fun _ => 0%nat)
              5%nat (VFun 7) None idle Hs eq_refl Hfree)
    as (Hr & He & _).
  split; [exact Hs|]. split; [exact Hr|].
  etrans; [|exact He]. evaluate.
Defined.

Lemma onMessage_without_handshake_witness :
  let c := constructed scenario_config in
  let c' := exec (@onMessage sample_codec sample_actions
                    (Decoded (response "r1"))) c in
  state c = connecting /\ state c' = connecting /\ currentRetries c' = 0.
Proof.
  intros c c'.
  destruct (@onMessage_without_handshake sample_codec sample_actions
              (Decoded (response "r1")) c (or_intror eq_refl))
    as (_ & Hs & _ & _ & Hr & _).
  split; [evaluate|]. split; [etrans; [exact Hs|evaluate]|].
  etrans; [exact Hr|evaluate].
Defined.

(** ** Reconnection policy: the whole episode *)

Lemma failed_attempt_opens c :
  retrying c -> ~ exhausted c ->
  exists c',
    failed_attempt c = (c', Normal tt)
    /\ retrying c'
    /\ currentRetries c' = currentRetries c + 1
    /\ options c' = options c
    /\ opened (trace c') = opened (trace c) ++ [next_handle c].
Proof.
  intros (Ha & Hauth & Hs & Ht) Hx.
  destruct (reconnectTimeout c) as [h|] eqn:Eh; [|contradiction].
  destruct Ht as [_ Ht].
  assert (exists c2,
            fire_reconnect c = (c2, Normal tt)
            /\ reconnectTimeout c2 = Some h
            /\ options c2 = options c
            /\ hasAuth c2 = true
            /\ currentRetries c2 = currentRetries c + 1
            /\ opened (trace c2) = opened (trace c) ++ [next_handle c])
    as (c2 & Hfire & Hh2 & Ho2 & Hauth2 & Hc2 & Hop2).
  { set (c1 := set_currentRetries (currentRetries c + 1)
                 (set_timers (delete h (timers c)) c)).
    exists (attempting c1). split.
    { unfold fire_reconnect, fire, run_task. unfold bind at 1, get at 1.
      rewrite Eh. unfold bind at 1, get at 1. rewrite Ht.
      unfold bind at 1, modify at 1.
      rewrite _reconnect_attempts;
        [|exact Ha|exact Hx|simpl; rewrite Hs; discriminate..].
      apply connect_attempts; [simpl; rewrite Hs; discriminate|exact Hauth]. }
    unfold attempting, c1. simpl. split; [exact Eh|]. split; [reflexivity|].
    split; [exact Hauth|]. split; [reflexivity|].
    unfold opened. rewrite !omap_app. simpl.
    destruct (socket c); simpl; by rewrite ?app_nil_r. }
  assert (failed_attempt c
          = _setupReconnect (failed_with (ASockErr transport_failure) c2))
    as ->.
  { unfold failed_attempt, bind. rewrite Hfire.
    unfold onConnectError, transport_failure. cbn [err_type].
    rewrite bool_decide_eq_true_2 by reflexivity.
    unfold fail, failed_with. unfold_monad. simpl. reflexivity. }
  set (c3 := failed_with (ASockErr transport_failure) c2).
  assert (autoReconnect (options c3) = true /\ hasAuth c3 = true
          /\ state c3 = failed
          /\ currentRetries c3 = currentRetries c + 1
          /\ options c3 = options c
          /\ reconnectTimeout c3 = Some h
          /\ opened (trace c3) = opened (trace c) ++ [next_handle c])
    as (Ha3 & Hauth3 & Hs3 & Hc3 & Ho3 & Hh3 & Hop).
  { unfold c3, failed_with. simpl. rewrite Ho2.
    split; [exact Ha|]. split; [exact Hauth2|]. split; [reflexivity|].
    split; [exact Hc2|]. split; [reflexivity|]. split; [exact Hh2|].
    unfold opened in *. rewrite omap_app. simpl. by rewrite app_nil_r. }
  clearbody c3.
  destruct (decide (exhausted c3)) as [Hx3|Hx3].
  - rewrite (_setupReconnect_exhausted c3 Hx3). exists (disarmed c3).
    split; [reflexivity|]. unfold disarmed. rewrite Hh3.
    split; [|split; [exact Hc3|split; [exact Ho3|exact Hop]]].
    split; [exact Ha3|]. split; [exact Hauth3|]. split; [exact Hs3|].
    exact Hx3.
  - rewrite (_setupReconnect_below c3 Hx3). exists (armed c3).
    split; [reflexivity|]. unfold armed, disarmed. rewrite Hh3.
    split; [|split; [exact Hc3|split; [exact Ho3|exact Hop]]].
    split; [exact Ha3|]. split; [exact Hauth3|]. split; [exact Hs3|].
    cbn [reconnectTimeout set_reconnectTimeout].
    split; [exact Hx3|]. cbn. by rewrite lookup_insert_eq.
Qed.

(** X18: an episode of automatic retries runs out.  From a connection
    whose last attempt failed and whose next retry is scheduled, letting
    every automatic attempt fail opens exactly as many transports as the
    budget has left, one per attempt, and ends [failed] with the counter
    at [retriesAmount] and no timer scheduled. *)
Theorem retries_run_out n : forall c,
  retrying c ->
  currentRetries c + Z.of_nat n = retriesAmount (options c) ->
  exists c',
    failed_attempts n c = (c', Normal tt)
    /\ state c' = failed
    /\ currentRetries c' = retriesAmount (options c)
    /\ reconnectTimeout c' = None
    /\ length (opened (trace c')) = (length (opened (trace c)) + n)%nat.
Proof.
  induction n as [|n IH]; intros c Hr Hn.
  - assert (exhausted c) as Hx by (unfold exhausted; lia).
    exists c. split; [reflexivity|].
    destruct Hr as (_ & _ & Hs & Ht).
    split; [exact Hs|]. split; [lia|]. split; [|lia].
    destruct (reconnectTimeout c); [|reflexivity]. by destruct Ht.
  - assert (~ exhausted c) as Hx by (unfold exhausted; lia).
    destruct (failed_attempt_opens c Hr Hx)
      as (c1 & E1 & Hr1 & Hc1 & Ho1 & Hop1).
    destruct (IH c1 Hr1) as (c2 & E2 & Hs2 & Hc2 & Ht2 & Hop2);
      [rewrite Hc1, Ho1; lia|].
    exists c2. split; [simpl; unfold bind; by rewrite E1, E2|].
    split; [exact Hs2|]. split; [congruence|]. split; [exact Ht2|].
    rewrite Hop2, Hop1, length_app. simpl. lia.
Qed.

Lemma retries_run_out_witness :
  let c := exec (onConnectError transport_failure)
             (constructed (with_retries 2 (with_token "abc" no_options))) in
  retrying c
  /\ exists c',
       failed_attempts 2 c = (c', Normal tt)
       /\ currentRetries c' = 2
       /\ length (opened (trace c')) = 3%nat.
Proof.
  intros c.
  assert (retrying c) as Hr.
  { unfold retrying.
    assert (reconnectTimeout c = Some 2%nat) as -> by evaluate.
    split; [evaluate|]. split; [evaluate|]. split; [evaluate|].
    split; evaluate. }
  assert (currentRetries c + Z.of_nat 2 = retriesAmount (options c)) as Hn
    by evaluate.
  destruct (retries_run_out 2 c Hr Hn) as (c' & E & _ & Hc & _ & Hop).
  split; [exact Hr|]. exists c'. split; [exact E|].
  split; [etrans; [exact Hc|evaluate]|etrans; [exact Hop|evaluate]].
Defined.

(** ** Request identifiers *)

Lemma string_length_app (s1 s2 : string) :
  String.length (s1 +:+ s2) = (String.length s1 + String.length s2)%nat.
Proof.
  induction s1 as [|a s1 IH]; [reflexivity|].
  change (String a s1 +:+ s2) with (String a (s1 +:+ s2)). simpl.
  by rewrite IH.
Qed.

(** Every index below 62 picks one character of the alphabet. *)
Lemma charAt_possible d :
  (d < 62)%nat ->
  exists a, charAt possible d = String a "" /\ has_char a possible = true.
Proof.
  intros Hd.
  do 62 (destruct d as [|d]; [eexists; split; reflexivity|]). lia.
Qed.

Lemma random_text_shape draw n : forall i,
  (forall j, (draw j < 62)%nat) ->
  String.length (random_text draw i n) = n
  /\ forall a, has_char a (random_text draw i n) = true ->
               has_char a possible = true.
Proof.
  induction n as [|n IH]; intros i Hd; [by split|].
  destruct (charAt_possible (draw i) (Hd i)) as (b & Hb & Hin).
  destruct (IH (S i) Hd) as [Hlen Hall].
  change (random_text draw i (S n))
    with (charAt possible (draw i) +:+ random_text draw (S i) n).
  rewrite Hb.
  change (String b "" +:+ random_text draw (S i) n)
    with (String b (random_text draw (S i) n)).
  split; [simpl; by rewrite Hlen|].
  intros a. simpl. destruct (Ascii.eqb_spec a b) as [->|_]; [by intros _|].
  apply Hall.
Qed.

(** X19: a generated request id is 24 characters drawn from the
    alphanumeric alphabet followed by the connection id, or by ["----"]
    while the connection has none; it is therefore never shorter than 25
    characters. *)
Theorem randomReqId_shape draw c :
  (forall j, (draw j < 62)%nat) ->
  exists text,
    randomReqId draw c = text +:+ or_default (connectionId c) "----"
    /\ String.length text = 24%nat
    /\ (forall a, has_char a text = true -> has_char a possible = true)
    /\ (truthy_str (connectionId c) = false ->
        randomReqId draw c = text +:+ "----")
    /\ (25 <= String.length (randomReqId draw c))%nat.
Proof.
  intros Hd. destruct (random_text_shape draw 24 0 Hd) as [Hlen Hall].
  exists (random_text draw 0 24). unfold randomReqId.
  split; [reflexivity|]. split; [exact Hlen|]. split; [exact Hall|]. split.
  - intros Hc. unfold or_default. destruct (connectionId c) as [s|]; [|done].
    simpl in Hc. apply negb_false_iff in Hc. by rewrite Hc.
  - rewrite string_length_app, Hlen.
    pose proof (or_default_nonempty (connectionId c) "----") as Hne.
    destruct (or_default (connectionId c) "----"); [by exfalso; apply Hne|].
    simpl. lia.
Qed.

Lemma randomReqId_shape_witness :
  (25 <= String.length (randomReqId (fun j => (j * 5 mod 62)%nat) idle))%nat
  /\ randomReqId (fun j => (j * 5 mod 62)%nat) idle
     = "AFKPUZejoty38DINSXchmrw1----".
Proof.
  destruct (randomReqId_shape (fun j => (j * 5 mod 62)%nat) idle)
    as (text & _ & _ & _ & _ & Hlen).
  { intros j. apply Nat.mod_upper_bound. discriminate. }
  split; [exact Hlen|evaluate].
Defined.

(** ** REST helper *)

(** X20: the REST URL.  With a non-empty host and a non-empty path,
    [getRestUrl] yields [http(s)://host/path], with one slash between
    host and path whether or not the path was given with a leading slash;
    with an empty host it yields ["http://localhost:8081"] whatever the
    path and the scheme; called without a path it appends the text
    ["undefined"] to the host. *)
Theorem getRestUrl_shape c :
  (forall p, host c <> "" -> p <> "" ->
     getRestUrl (Some p) c
     = (if secure c then "https" else "http") +:+ "://" +:+ host c
         +:+ "/" +:+ without_slash p)
  /\ (forall postfix, host c = "" ->
        getRestUrl postfix c = "http://localhost:8081")
  /\ (host c <> "" ->
      getRestUrl None c
      = (if secure c then "https" else "http") +:+ "://" +:+ host c
          +:+ "undefined").
Proof.
  split; [|split].
  - intros p Hh Hp. unfold getRestUrl.
    apply String.eqb_neq in Hh. rewrite Hh.
    destruct p as [|a p]; [done|]. cbn [String.eqb negb andb].
    unfold charAt. cbn [String.get].
    destruct (Ascii.eqb_spec a "/"%char) as [->|Hne].
    + reflexivity.
    + assert (String.eqb (String a "") "/" = false) as ->.
      { apply String.eqb_neq. intros [= ->]. by apply Hne. }
      cbn [negb String_of_argument].
      assert (without_slash (String a p) = String a p) as ->; [|reflexivity].
      unfold without_slash. destruct a as [[] [] [] [] [] [] [] []];
        try reflexivity. by exfalso; apply Hne.
  - intros postfix Hh. unfold getRestUrl. by rewrite Hh.
  - intros Hh. unfold getRestUrl. apply String.eqb_neq in Hh. by rewrite Hh.
Qed.

Lemma getRestUrl_shape_witness :
  let c := constructed scenario_config in
  host c <> ""
  /\ getRestUrl (Some "room/7") c = "http://localhost:8081/room/7"
  /\ getRestUrl (Some "/room/7") c = "http://localhost:8081/room/7".
Proof.
  intros c.
  assert (host c <> "") as Hh by evaluate.
  destruct (getRestUrl_shape c) as (Hp & _ & _).
  split; [exact Hh|]. split.
  - etrans; [apply (Hp "room/7" Hh); discriminate|evaluate].
  - etrans; [apply (Hp "/room/7" Hh); discriminate|evaluate].
Defined.
